(** * Translation request orchestration of [api.py]

    A shallow embedding of the request pipeline of the IndicTrans
    translation service ([translate_texts], [translate_texts_with_model]
    and [_translate_batch_on_gpu]) together with the properties of its
    language resolution, input filter, chunked batching, per-chunk
    fallback and result reassembly.

    Conventions of the embedding.
    - A Python [str] is the list of its Unicode code points.
    - The translation model (preprocessing, tokenizer, generation,
      decoding, postprocessing, lines 160-217 of [api.py]) is an opaque
      stateful operation [engine] that returns a list of strings or raises.
      It does not modify the list of texts it is given.
    - Python exceptions are explicit: a computation returns a value or
      raises, and threads the state of the engine.
    - Lists are values: the pipeline writes only to lists it has built
      itself ([final_results] is a copy of the input, line 364), so no write
      is seen through another name.
    - [processing_time] is wall-clock time and is left out of the response.
    - What the functions print and log is not part of their result; a
      [print] or a log call can raise, though. [Api] gives such an exception
      a place in the [try] bodies of the two top functions only;
      [ApiFull] is the same code with a place for every region of
      statements, the ones before a [try] and the handlers included, and
      agrees with [Api] when no other place raises. *)

From Equations Require Import Equations.
From Stdlib Require Import String Ascii.
From Stdlib Require Import List Arith NArith Bool Lia Sorted.
Import ListNotations.

Set Implicit Arguments.

(** ** Python strings *)

Module PyStr.

(** A code point, and a string as the sequence of its code points. *)
Definition char := N.
Definition str := list char.

(** A literal written with ASCII characters. *)
Definition py (s : String.string) : str :=
  map N_of_ascii (String.list_ascii_of_string s).

Arguments py s%_string.

Fixpoint str_eqb (a b : str) : bool :=
  match a, b with
  | [], [] => true
  | x :: a', y :: b' => N.eqb x y && str_eqb a' b'
  | _, _ => false
  end.

(** [str.isspace] and [str.isalpha] on the ASCII range: the white space
    characters are TAB, LF, VT, FF, CR, the four separators FS, GS, RS, US
    and the space; the letters are A-Z and a-z. *)
Definition ascii_isspace (c : char) : bool :=
  ((9 <=? c) && (c <=? 13) || (28 <=? c) && (c <=? 32))%N.

Definition ascii_isalpha (c : char) : bool :=
  ((65 <=? c) && (c <=? 90) || (97 <=? c) && (c <=? 122))%N.

Section Unicode.

(** The Unicode character database of the Python runtime, beyond ASCII:
    which code points are white space, which are letters. *)
Variable uni_isspace : char -> bool.
Variable uni_isalpha : char -> bool.

Definition isspace (c : char) : bool :=
  if (c <? 128)%N then ascii_isspace c else uni_isspace c.

Definition isalpha (c : char) : bool :=
  if (c <? 128)%N then ascii_isalpha c else uni_isalpha c.

(** [text.lstrip()], [text.rstrip()], [text.strip()]. *)
Fixpoint lstrip (text : str) : str :=
  match text with
  | [] => []
  | c :: rest => if isspace c then lstrip rest else text
  end.

Definition rstrip (text : str) : str := rev (lstrip (rev text)).

Definition strip (text : str) : str := rstrip (lstrip text).

(** [any(c.isalpha() for c in text)]. *)
Definition any_isalpha (text : str) : bool := existsb isalpha text.

End Unicode.

(** [str.isdigit] on the ASCII range: the digits 0-9. *)
Definition ascii_isdigit (c : char) : bool :=
  ((48 <=? c) && (c <=? 57))%N.

Section Digits.

(** The digits of the Unicode character database beyond ASCII. *)
Variable uni_isdigit : char -> bool.

Definition isdigit_char (c : char) : bool :=
  if (c <? 128)%N then ascii_isdigit c else uni_isdigit c.

(** [text.isdigit()]: the text is not empty and all its characters are
    digits. *)
Definition isdigit (text : str) : bool :=
  negb (length text =? 0) && forallb isdigit_char text.

End Digits.

End PyStr.

Import PyStr.

(** ** Python lists *)

Module PyList.

(** [l[a:b]] for [0 <= a], [0 <= b]: the bounds are clamped. *)
Definition slice {A} (l : list A) (a b : nat) : list A :=
  firstn (b - a) (skipn a l).

(** The list [l] with position [i] replaced by [v]; a position beyond the
    end is not written (the assignment [l[i] = v] raises there, see
    [setitem] below). *)
Fixpoint update {A} (l : list A) (i : nat) (v : A) : list A :=
  match l, i with
  | [], _ => []
  | _ :: l', 0 => v :: l'
  | x :: l', S i' => x :: update l' i' v
  end.

(** [range(start, stop, step)] for a positive step, as the list of the
    values it yields: [start], [start + step], ... while below [stop].
    [range] with a zero step raises in Python and yields nothing here. *)
Equations? py_range (start stop step : nat) : list nat
  by wf (stop - start) lt :=
py_range start stop 0 := [];
py_range start stop (S k) with lt_dec start stop := {
  | left _ := start :: py_range (start + S k) stop (S k);
  | right _ := [] }.
Proof. lia. Qed.

End PyList.

Import PyList.

(** ** Exceptions and the computation monad *)

(** The exception classes the pipeline tells apart: [TimeoutError] has a
    handler of its own in [_translate_batch_on_gpu], [IndexError] is what a
    list access out of range raises, and [Exception] stands for any other
    subclass of [Exception]. The argument is the message, [str(e)]. *)
Inductive exn : Type :=
| TimeoutError (msg : str)
| IndexError (msg : str)
| Exception (msg : str).

Definition exn_str (e : exn) : str :=
  match e with
  | TimeoutError msg | IndexError msg | Exception msg => msg
  end.

Inductive Result (A : Type) : Type :=
| Ok (a : A)
| Raise (e : exn).

Arguments Ok {A} a.
Arguments Raise {A} e.

(** A computation over the state [St] of the engine: it returns or raises,
    and the state changes made before an exception are kept. *)
Definition M (St A : Type) : Type := St -> Result A * St.

Definition ret {St A} (a : A) : M St A := fun s => (Ok a, s).

Definition raise {St A} (e : exn) : M St A := fun s => (Raise e, s).

Definition bind {St A B} (m : M St A) (k : A -> M St B) : M St B :=
  fun s =>
    match m s with
    | (Ok a, s') => k a s'
    | (Raise e, s') => (Raise e, s')
    end.

(** [try: body except Exception as e: handler(e)]; every class of [exn] is a
    subclass of [Exception]. *)
Definition try_except {St A} (body : M St A) (handler : exn -> M St A)
  : M St A :=
  fun s =>
    match body s with
    | (Ok a, s') => (Ok a, s')
    | (Raise e, s') => handler e s'
    end.

(** A pure step that may raise. *)
Definition lift {St A} (r : Result A) : M St A := fun s => (r, s).

Declare Scope py_scope.
Delimit Scope py_scope with pym.
Notation "x <- m ;; k" := (bind m (fun x => k))
  (at level 61, m at next level, right associativity) : py_scope.
Notation "m ;;; k" := (bind m (fun _ => k))
  (at level 61, right associativity) : py_scope.

(** [l[i]] and [l[i] = v]: both raise [IndexError] out of range. *)
Definition getitem {A} (l : list A) (i : nat) : Result A :=
  match nth_error l i with
  | Some x => Ok x
  | None => Raise (IndexError (py "list index out of range"))
  end.

Definition setitem {A} (l : list A) (i : nat) (v : A) : Result (list A) :=
  if i <? length l then Ok (update l i v)
  else Raise (IndexError (py "list assignment index out of range")).

(** ** The module [api.py] *)

Module Api.

(** *** Requests and responses *)

Record TranslationRequest : Type := {
  texts : list str;
  source_language : str;
  target_language : str;
  request_id : option str
}.

(** The dictionary the endpoint returns: [translations], and the key
    [error] when it is present. *)
Record TranslationResponse : Type := {
  translations : list str;
  error : option str
}.

(** *** Constants of the module *)

Definition MODEL_BATCH_SIZE : nat := 24.

Definition valid_target_langs : list str :=
  map py
    [ "hin_Deva"; "mar_Deva"; "tam_Taml"; "tel_Telu"; "guj_Gujr"; "kan_Knda";
      "ben_Beng"; "asm_Beng"; "brx_Deva"; "doi_Deva"; "eng_Latn"; "gom_Deva";
      "kas_Arab"; "kas_Deva"; "mai_Deva"; "mal_Mlym"; "mni_Beng"; "mni_Mtei";
      "nep_Deva"; "npi_Deva"; "ory_Orya"; "pan_Guru"; "san_Deva"; "sat_Olck";
      "snd_Arab"; "snd_Deva"; "urd_Arab" ]%string.

Definition tgt_lang_map : list (str * str) :=
  map (fun kv => (py (fst kv), py (snd kv)))
    [ ("hi", "hin_Deva"); ("mr", "mar_Deva"); ("ta", "tam_Taml");
      ("te", "tel_Telu"); ("gu", "guj_Gujr"); ("kn", "kan_Knda");
      ("ben", "ben_Beng"); ("bn", "ben_Beng"); ("asm", "asm_Beng");
      ("brx", "brx_Deva"); ("doi", "doi_Deva"); ("eng", "eng_Latn");
      ("gom", "gom_Deva"); ("kas", "kas_Arab"); ("kas_Deva", "kas_Deva");
      ("mai", "mai_Deva"); ("mal", "mal_Mlym"); ("mni", "mni_Beng");
      ("mni_Mtei", "mni_Mtei"); ("nep", "nep_Deva"); ("npi", "npi_Deva");
      ("ory", "ory_Orya"); ("pan", "pan_Guru"); ("san", "san_Deva");
      ("sat", "sat_Olck"); ("snd", "snd_Arab"); ("snd_Deva", "snd_Deva");
      ("tel", "tel_Telu"); ("urd", "urd_Arab"); ("as", "asm_Beng");
      ("en", "eng_Latn"); ("ks", "kas_Arab"); ("ml", "mal_Mlym");
      ("ne", "nep_Deva"); ("or", "ory_Orya"); ("pa", "pan_Guru");
      ("sa", "san_Deva"); ("sd", "snd_Arab"); ("ur", "urd_Arab") ]%string.

(** [key in s] for a set of strings, [d.get(key)] for a dictionary. *)
Definition str_in (key : str) (s : list str) : bool :=
  existsb (str_eqb key) s.

Fixpoint dict_get (d : list (str * str)) (key : str) : option str :=
  match d with
  | [] => None
  | (k, v) :: d' => if str_eqb key k then Some v else dict_get d' key
  end.

(** The language lookup of [translate_texts_with_model] (lines 292-317): a
    canonical tag is used as it is, anything else goes through the table of
    short codes. *)
Definition resolve_tgt_lang (target_language : str) : option str :=
  if str_in target_language valid_target_langs then Some target_language
  else dict_get tgt_lang_map target_language.

(** [not tgt_lang]: [None] and the empty string are both false values. *)
Definition falsy (tgt_lang : option str) : bool :=
  match tgt_lang with
  | None => true
  | Some t => length t =? 0
  end.

(** Places of the pipeline where an exception that is not the engine's can
    be raised (a [print] on a stream that cannot take the text, a
    [MemoryError]), one per region of code lying between two handlers: the
    [try] body of [translate_texts] before and after its call of
    [translate_texts_with_model] (lines 388-390 and 394-424), and the [try]
    body of [translate_texts_with_model] in the language lookup (lines
    288-323), in the filter (lines 326-345) and in the reassembly (lines
    363-368). These five lie inside [try] bodies; the statements before a
    [try] (lines 286, 376-383), the loop over the batches and the handlers
    have their places in [ApiFull.Place]. *)
Inductive Site : Type :=
| InEndpointBefore
| InEndpointAfter
| InResolve
| InFilter
| InAssemble.

(** *** The repair loop of [_translate_batch_on_gpu] (lines 223-224)

    [while len(results) < len(batch_texts):
         results.append(batch_texts[len(results)])] *)
Equations? pad_results {A} (results batch_texts : list A) : Result (list A)
  by wf (length batch_texts - length results) lt :=
pad_results results batch_texts
  with lt_dec (length results) (length batch_texts) := {
  | left _ with getitem batch_texts (length results) := {
      | Ok x := pad_results (results ++ [x]) batch_texts;
      | Raise e := Raise e };
  | right _ := Ok results }.
Proof. rewrite length_app; simpl; lia. Qed.

(** *** The pipeline *)

Section Pipeline.

Local Open Scope py_scope.

(** The Unicode tables of the runtime. *)
Variable uni_isspace : char -> bool.
Variable uni_isalpha : char -> bool.

(** The state of the model and of its device, and the model itself, called
    as [engine batch src_lang tgt_lang]: it returns the postprocessed
    [results] or raises, [TimeoutError] when the alarm goes off. *)
Variable EngineState : Type.
Variable engine : list str -> str -> str -> M EngineState (list str).

(** The exception raised at a place of the pipeline, if any. *)
Variable fault : Site -> option exn.

Definition checkpoint (site : Site) : M EngineState unit :=
  match fault site with
  | Some e => raise e
  | None => ret tt
  end.

(** *** [_translate_batch_on_gpu] (lines 144-268)

    With every [print] of the function taken as returning: the handlers
    then come down to their [return batch_texts]. *)
Definition _translate_batch_on_gpu (batch_texts : list str)
    (src_lang tgt_lang : str) : M EngineState (list str) :=
  try_except
    (if length batch_texts =? 0 then ret []
     else
       results <- engine batch_texts src_lang tgt_lang ;;
       results <-
         (if negb (length results =? length batch_texts) then
            results <- lift (pad_results results batch_texts) ;;
            ret (slice results 0 (length batch_texts))
          else ret results) ;;
       ret results)
    (fun e =>
       match e with
       | TimeoutError _ => ret batch_texts
       | _ => ret batch_texts
       end).

(** *** The filter (lines 326-339)

    The loop over [enumerate(texts_to_translate)], started at index [i] with
    the two lists built so far. *)
Definition translatable (text : str) : bool :=
  (0 <? length text)
  && any_isalpha uni_isalpha text
  && (length text <=? 1000).

Fixpoint filter_loop (i : nat) (texts_to_translate : list str)
    (filtered_texts : list str) (text_indices : list nat)
  : list str * list nat :=
  match texts_to_translate with
  | [] => (filtered_texts, text_indices)
  | text :: rest =>
      let text := strip uni_isspace text in
      if translatable text
      then filter_loop (S i) rest (filtered_texts ++ [text]) (text_indices ++ [i])
      else filter_loop (S i) rest filtered_texts text_indices
  end.

(** *** The batches (lines 347-361) *)
Fixpoint batch_loop (starts : list nat) (filtered_texts : list str)
    (src_lang tgt_lang : str) (all_translations : list str)
  : M EngineState (list str) :=
  match starts with
  | [] => ret all_translations
  | i :: starts' =>
      let sub_batch := slice filtered_texts i (i + MODEL_BATCH_SIZE) in
      all_translations <-
        try_except
          (translations_chunk <-
             _translate_batch_on_gpu sub_batch src_lang tgt_lang ;;
           ret (all_translations ++ translations_chunk))
          (fun _ => ret (all_translations ++ sub_batch)) ;;
      batch_loop starts' filtered_texts src_lang tgt_lang all_translations
  end.

(** *** The reassembly (lines 363-366)

    [for orig_idx, translation in zip(...): final_results[orig_idx] = translation] *)
Fixpoint scatter (final_results : list str) (pairs : list (nat * str))
  : Result (list str) :=
  match pairs with
  | [] => Ok final_results
  | (orig_idx, translation) :: pairs' =>
      match setitem final_results orig_idx translation with
      | Ok final_results' => scatter final_results' pairs'
      | Raise e => Raise e
      end
  end.

(** *** [translate_texts_with_model] (lines 284-372)

    First the body of its [try], then the function with its handler. The
    [print] of line 286, before the [try], and the one of the handler (line
    371) are taken as returning. *)
Definition translate_texts_with_model_body (texts_to_translate : list str)
    (target_language : str) : M EngineState (list str) :=
  let src_lang := py "eng_Latn" in
  checkpoint InResolve ;;;
  let tgt_lang := resolve_tgt_lang target_language in
  if falsy tgt_lang then ret texts_to_translate
  else
    match tgt_lang with
    | None => ret texts_to_translate
    | Some tgt_lang =>
        checkpoint InFilter ;;;
        let (filtered_texts, text_indices) :=
          filter_loop 0 texts_to_translate [] [] in
        if length filtered_texts =? 0 then ret texts_to_translate
        else
          all_translations <-
            batch_loop
              (py_range 0 (length filtered_texts) MODEL_BATCH_SIZE)
              filtered_texts src_lang tgt_lang [] ;;
          checkpoint InAssemble ;;;
          lift (scatter texts_to_translate
                  (combine text_indices all_translations))
    end.

Definition translate_texts_with_model (texts_to_translate : list str)
    (target_language : str) : M EngineState (list str) :=
  try_except
    (translate_texts_with_model_body texts_to_translate target_language)
    (fun _ => ret texts_to_translate).

(** *** The endpoint [translate_texts] (lines 374-430)

    [batch_results] is always a list here, so the [isinstance] test of line
    398 is not taken. A computation that returns is answered with status
    200 by the framework; one that raises is answered with status 500. The
    statements before the [try] (lines 376-383) and the ones of the handler
    before its [return] (lines 427-428) are taken as returning. *)
Definition translate_texts_body (request : TranslationRequest)
  : M EngineState TranslationResponse :=
  checkpoint InEndpointBefore ;;;
  let texts_to_translate := texts request in
  batch_results <-
    translate_texts_with_model texts_to_translate
      (target_language request) ;;
  let batch_results :=
    if negb (length batch_results =? length texts_to_translate) then
      if length batch_results <? length texts_to_translate
      then batch_results ++ skipn (length batch_results) texts_to_translate
      else slice batch_results 0 (length texts_to_translate)
    else batch_results in
  checkpoint InEndpointAfter ;;;
  ret {| translations := batch_results; error := None |}.

Definition translate_texts (request : TranslationRequest)
  : M EngineState TranslationResponse :=
  try_except
    (translate_texts_body request)
    (fun e =>
       ret {| translations := texts request; error := Some (exn_str e) |}).

End Pipeline.

(** *** The diagnostic endpoints [test_model] (lines 468-505) and
    [debug_filter] (lines 507-538)

    Of the dictionaries they return, the entries on the device, the model
    and the timing are left out. Here are their data and [debug_filter],
    which calls nothing; [test_model] is [ApiFull.test_model]. *)

Module Diagnostics.

(** What [test_model] returns: the dictionary of the [try] body, with
    [status] ["success"], or the one of the handler, with [status]
    ["error"]. *)
Inductive TestModelResponse : Type :=
| StatusSuccess (test_input test_output : list str)
| StatusError (error : str).

Record DebugFilterResponse : Type := {
  original_texts : list str;
  filtered_texts : list str;
  filtered_indices : list nat;
  filtered_count : nat;
  total_count : nat
}.

(** [test_texts] of [test_model]. *)
Definition test_texts : list str :=
  map py
    [ "Hello world"; "Welcome to NSE"; "Market data";
      "Investment opportunities"; "Trading platform"; "Financial services";
      "Stock exchange"; "Market analysis"; "NSE"; "BSE"; "SEBI"; "IPO"; "ETF";
      "Mutual Fund"; "Derivatives"; "Equity" ]%string.

(** [test_texts] of [debug_filter]. *)
Definition debug_test_texts : list str :=
  map py
    [ "Hello"; "123"; "NSE"; "Market Data"; "A"; "B"; "C"; "D"; "E"; "F";
      "Welcome to the National Stock Exchange";
      "Trading platform for investors";
      "Financial services and market analysis";
      "Investment opportunities available";
      "Derivatives trading"; "Equity markets"; "Mutual funds"; "ETFs";
      "Initial Public Offering";
      "Securities and Exchange Board of India" ]%string.

Section Endpoints.

Local Open Scope py_scope.

Variable uni_isspace : char -> bool.
Variable uni_isalpha : char -> bool.
Variable uni_isdigit : char -> bool.

(** The test of lines 523-526 on the trimmed text. *)
Definition debug_keep (text : str) : bool :=
  (1 <=? length text)
  && any_isalpha uni_isalpha text
  && negb (isdigit uni_isdigit text)
  && (length text <=? 200).

Fixpoint debug_filter_loop (i : nat) (test_texts : list str)
    (filtered_texts : list str) (text_indices : list nat)
  : list str * list nat :=
  match test_texts with
  | [] => (filtered_texts, text_indices)
  | text :: rest =>
      let text := strip uni_isspace text in
      if debug_keep text
      then debug_filter_loop (S i) rest
             (filtered_texts ++ [text]) (text_indices ++ [i])
      else debug_filter_loop (S i) rest filtered_texts text_indices
  end.

Definition debug_filter : DebugFilterResponse :=
  let (filtered_texts, text_indices) :=
    debug_filter_loop 0 debug_test_texts [] [] in
  {| original_texts := debug_test_texts;
     filtered_texts := filtered_texts;
     filtered_indices := text_indices;
     filtered_count := length filtered_texts;
     total_count := length debug_test_texts |}.

End Endpoints.

End Diagnostics.

End Api.

Import Api.

(** ** [api.py] with every statement that can raise

    The same functions once more, this time with a place for every region
    of statements of the source in which an exception that is not the
    engine's can be raised: the statements before a [try], the bodies, the
    loop over the batches and the handlers. What the functions compute is
    written as in [Api], whose filter, reassembly and repair are used as
    they are. *)

Module ApiFull.

(** The regions, function by function, with their lines. *)
Inductive Place : Type :=
(* _translate_batch_on_gpu *)
| GpuEntry            (* 148-151: the prints before the test of line 154 *)
| GpuPrologue         (* 157-161: the print and the two imports *)
| GpuRepair           (* 221: the print of a count mismatch *)
| GpuEpilogue         (* 228-242: memory, the print, the alarm *)
| GpuHandler          (* 246 and 258: the print of either handler *)
(* _translate_batch_parallel *)
| ParallelTry         (* 273-277 *)
| ParallelHandler     (* 281 *)
(* translate_texts_with_model *)
| ModelEntry          (* 286: before the try *)
| ModelResolve        (* 288-323 *)
| ModelFilter         (* 326-345 *)
| ModelBatch          (* 352-353: the head of an iteration *)
| ModelChunkHandler   (* 359 *)
| ModelAssemble       (* 363-368 *)
| ModelHandler        (* 371 *)
(* translate_texts *)
| EndpointEntry       (* 376-383: before the try *)
| EndpointBefore      (* 388-390 *)
| EndpointAfter       (* 394-424 *)
| EndpointHandler     (* 427-428 *)
(* api_translate_texts *)
| AliasEntry          (* 435-436: before the try *)
| AliasHandler        (* 442 *)
(* test_model *)
| TestModelTry        (* 481-497 *)
| TestModelHandler.   (* 499-505 *)

(** The places of [Api], here. *)
Definition of_site (site : Site) : Place :=
  match site with
  | InEndpointBefore => EndpointBefore
  | InEndpointAfter => EndpointAfter
  | InResolve => ModelResolve
  | InFilter => ModelFilter
  | InAssemble => ModelAssemble
  end.

(** The places [Api] does not have. *)
Definition beyond_sites (p : Place) : bool :=
  match p with
  | EndpointBefore | EndpointAfter | ModelResolve | ModelFilter
  | ModelAssemble => false
  | _ => true
  end.

(** [UnboundLocalError], with its message as of Python 3.11: [platform] is
    a local name of [_translate_batch_on_gpu], bound by the import of line
    161. *)
Definition unbound_platform : exn :=
  Exception
    (py "cannot access local variable 'platform' where it is not associated with a value").

Section Pipeline.

Local Open Scope py_scope.

Variable uni_isspace : char -> bool.
Variable uni_isalpha : char -> bool.
Variable EngineState : Type.

(** The model, lines 163-217: the alarm, preprocessing, tokenizer,
    generation, decoding and postprocessing. *)
Variable engine : list str -> str -> str -> M EngineState (list str).

(** The exception raised at a place, if any. *)
Variable place : Place -> option exn.

Definition at_ (p : Place) : M EngineState unit :=
  match place p with
  | Some e => raise e
  | None => ret tt
  end.

(** *** [_translate_batch_on_gpu] (lines 144-268)

    The two handlers (lines 245-255 and 257-268) do the same: they print,
    ask [platform.system()], cancel the alarm and return the batch. In a
    handler entered before line 161 the name [platform] is not bound yet and
    asking it raises. The one [try] of the source is therefore written in
    two parts, up to line 161 and from line 163 on, each with the handler as
    it runs there. *)
Definition gpu_handler (platform_bound : bool) (batch_texts : list str)
  : M EngineState (list str) :=
  at_ GpuHandler ;;;
  if platform_bound then ret batch_texts else raise unbound_platform.

Definition gpu_except (platform_bound : bool) (batch_texts : list str)
  : exn -> M EngineState (list str) :=
  fun e =>
    match e with
    | TimeoutError _ => gpu_handler platform_bound batch_texts
    | _ => gpu_handler platform_bound batch_texts
    end.

(** Lines 148-161; [Some []] is the [return []] of line 155. *)
Definition gpu_entry (batch_texts : list str)
  : M EngineState (option (list str)) :=
  at_ GpuEntry ;;;
  if length batch_texts =? 0 then ret (Some [])
  else at_ GpuPrologue ;;; ret None.

(** Lines 163-243. *)
Definition gpu_translate (batch_texts : list str) (src_lang tgt_lang : str)
  : M EngineState (list str) :=
  results <- engine batch_texts src_lang tgt_lang ;;
  results <-
    (if negb (length results =? length batch_texts) then
       at_ GpuRepair ;;;
       results <- lift (pad_results results batch_texts) ;;
       ret (slice results 0 (length batch_texts))
     else ret results) ;;
  at_ GpuEpilogue ;;;
  ret results.

Definition _translate_batch_on_gpu (batch_texts : list str)
    (src_lang tgt_lang : str) : M EngineState (list str) :=
  returned <-
    try_except
      (gpu_entry batch_texts)
      (fun e => results <- gpu_except false batch_texts e ;;
                ret (Some results)) ;;
  match returned with
  | Some results => ret results
  | None =>
      try_except
        (gpu_translate batch_texts src_lang tgt_lang)
        (gpu_except true batch_texts)
  end.

(** *** [_translate_batch_parallel] (lines 270-282) *)
Definition _translate_batch_parallel (batch_texts : list str)
    (src_lang tgt_lang : str) : M EngineState (list str) :=
  try_except
    (at_ ParallelTry ;;;
     _translate_batch_on_gpu batch_texts src_lang tgt_lang)
    (fun _ => at_ ParallelHandler ;;; ret batch_texts).

(** *** The batches (lines 347-361) *)
Fixpoint batch_loop (starts : list nat) (filtered_texts : list str)
    (src_lang tgt_lang : str) (all_translations : list str)
  : M EngineState (list str) :=
  match starts with
  | [] => ret all_translations
  | i :: starts' =>
      let sub_batch := slice filtered_texts i (i + MODEL_BATCH_SIZE) in
      at_ ModelBatch ;;;
      all_translations <-
        try_except
          (translations_chunk <-
             _translate_batch_on_gpu sub_batch src_lang tgt_lang ;;
           ret (all_translations ++ translations_chunk))
          (fun _ =>
             at_ ModelChunkHandler ;;;
             ret (all_translations ++ sub_batch)) ;;
      batch_loop starts' filtered_texts src_lang tgt_lang all_translations
  end.

(** *** [translate_texts_with_model] (lines 284-372) *)
Definition translate_texts_with_model_body (texts_to_translate : list str)
    (target_language : str) : M EngineState (list str) :=
  let src_lang := py "eng_Latn" in
  at_ ModelResolve ;;;
  let tgt_lang := resolve_tgt_lang target_language in
  if falsy tgt_lang then ret texts_to_translate
  else
    match tgt_lang with
    | None => ret texts_to_translate
    | Some tgt_lang =>
        at_ ModelFilter ;;;
        let (filtered_texts, text_indices) :=
          filter_loop uni_isspace uni_isalpha 0 texts_to_translate [] [] in
        if length filtered_texts =? 0 then ret texts_to_translate
        else
          all_translations <-
            batch_loop
              (py_range 0 (length filtered_texts) MODEL_BATCH_SIZE)
              filtered_texts src_lang tgt_lang [] ;;
          at_ ModelAssemble ;;;
          lift (scatter texts_to_translate
                  (combine text_indices all_translations))
    end.

Definition translate_texts_with_model (texts_to_translate : list str)
    (target_language : str) : M EngineState (list str) :=
  at_ ModelEntry ;;;
  try_except
    (translate_texts_with_model_body texts_to_translate target_language)
    (fun _ => at_ ModelHandler ;;; ret texts_to_translate).

(** *** The endpoint [translate_texts] (lines 374-430) *)
Definition translate_texts_body (request : TranslationRequest)
  : M EngineState TranslationResponse :=
  at_ EndpointBefore ;;;
  let texts_to_translate := texts request in
  batch_results <-
    translate_texts_with_model texts_to_translate
      (target_language request) ;;
  let batch_results :=
    if negb (length batch_results =? length texts_to_translate) then
      if length batch_results <? length texts_to_translate
      then batch_results ++ skipn (length batch_results) texts_to_translate
      else slice batch_results 0 (length texts_to_translate)
    else batch_results in
  at_ EndpointAfter ;;;
  ret {| translations := batch_results; error := None |}.

Definition translate_texts (request : TranslationRequest)
  : M EngineState TranslationResponse :=
  at_ EndpointEntry ;;;
  try_except
    (translate_texts_body request)
    (fun e =>
       at_ EndpointHandler ;;;
       ret {| translations := texts request; error := Some (exn_str e) |}).

(** *** The alias endpoint [api_translate_texts] (lines 432-444) *)
Definition api_translate_texts (request : TranslationRequest)
  : M EngineState TranslationResponse :=
  at_ AliasEntry ;;;
  try_except
    (translate_texts request)
    (fun e =>
       at_ AliasHandler ;;;
       ret {| translations := texts request; error := Some (exn_str e) |}).

(** *** The diagnostic endpoint [test_model] (lines 468-505) *)
Definition test_model : M EngineState Diagnostics.TestModelResponse :=
  try_except
    (result <-
       translate_texts_with_model Diagnostics.test_texts (py "hin_Deva") ;;
     at_ TestModelTry ;;;
     ret (Diagnostics.StatusSuccess Diagnostics.test_texts result))
    (fun e =>
       at_ TestModelHandler ;;;
       ret (Diagnostics.StatusError (exn_str e))).

End Pipeline.

End ApiFull.


(** ** Vocabulary of the statements *)

(** What line 220-225 make of a list [results] returned for [batch_texts]. *)
Definition repair {A} (results batch_texts : list A) : list A :=
  firstn (length batch_texts) (results ++ skipn (length results) batch_texts).

(** The output of a chunk, from what the engine did with it. *)
Definition chunk_output (chunk : list str) (outcome : Result (list str))
  : list str :=
  match outcome with
  | Ok results => repair results chunk
  | Raise _ => chunk
  end.

(** The chunks the loop of line 351 submits. *)
Definition chunks_of (filtered_texts : list str) : list (list str) :=
  map (fun i => slice filtered_texts i (i + MODEL_BATCH_SIZE))
    (py_range 0 (length filtered_texts) MODEL_BATCH_SIZE).

Definition ceil_div (n b : nat) : nat := (n + b - 1) / b.

Section Trace.

Variable EngineState : Type.
Variable engine : list str -> str -> str -> M EngineState (list str).

(** The outcomes of the engine on the chunks, called one after the other
    from the state [s], and the state it is left in. *)
Fixpoint engine_trace (chunks : list (list str)) (src_lang tgt_lang : str)
    (s : EngineState) : list (Result (list str)) * EngineState :=
  match chunks with
  | [] => ([], s)
  | c :: chunks' =>
      let (o, s') := engine c src_lang tgt_lang s in
      let (os, s'') := engine_trace chunks' src_lang tgt_lang s' in
      (o :: os, s'')
  end.

End Trace.

(** The outputs of the chunks, from the outcomes of the engine. *)
Definition chunk_outputs (chunks : list (list str))
    (outcomes : list (Result (list str))) : list (list str) :=
  map (fun co => chunk_output (fst co) (snd co)) (combine chunks outcomes).

(** The writes of [scatter], without the bound checks. *)
Definition scatter_pure (final_results : list str) (pairs : list (nat * str))
  : list str :=
  fold_left (fun acc p => update acc (fst p) (snd p)) pairs final_results.

Section Classification.

Variable uni_isspace : char -> bool.
Variable uni_isalpha : char -> bool.

(** The decision of the filter on one input text: the test of lines 331-333
    on the trimmed text. *)
Definition is_translatable (text : str) : bool :=
  translatable uni_isalpha (strip uni_isspace text).

(** The positions of the texts the filter keeps. *)
Definition translatable_indices (texts : list str) : list nat :=
  filter (fun i => is_translatable (nth i texts [])) (seq 0 (length texts)).

End Classification.

(** No exception but the engine's. *)
Definition no_fault : Site -> option exn := fun _ => None.

Definition fault_free (fault : Site -> option exn) : Prop :=
  forall site, fault site = None.

(** ** A test double of the engine, and sample requests *)

(** An alphabet without letters or white space beyond ASCII. *)
Definition ascii_only : char -> bool := fun _ => false.

(** The state counts the calls. A batch holding the text [boom] raises, one
    holding [slow] times out, one holding [short] loses all but its first
    result, one holding [long] gets one result too many; any other batch
    is answered text by text, with the target tag put in front. *)
Definition tagged (tgt_lang text : str) : str := tgt_lang ++ py ":" ++ text.

Definition demo_engine (batch : list str) (src_lang tgt_lang : str)
  : M nat (list str) :=
  fun calls =>
    if str_in (py "boom") batch then
      (Raise (Exception (py "CUDA out of memory")), S calls)
    else if str_in (py "slow") batch then
      (Raise (TimeoutError (py "GPU processing timed out")), S calls)
    else if str_in (py "short") batch then
      (Ok (map (tagged tgt_lang) (firstn 1 batch)), S calls)
    else if str_in (py "long") batch then
      (Ok (map (tagged tgt_lang) batch ++ [py "extra"]), S calls)
    else (Ok (map (tagged tgt_lang) batch), S calls).

Definition mk_request (texts : list str) (src tgt : String.string)
  : TranslationRequest :=
  {| texts := texts; source_language := py src; target_language := py tgt;
     request_id := None |}.

Definition demo_texts : list str :=
  [py " Hello world "; py "123"; py "Welcome"; py "  "; []].

(** Twenty-six translatable texts, hence two chunks; the second one holds
    [boom]. A text without letters sits in the middle. *)
Definition demo_texts_two_chunks : list str :=
  repeat (py "Market Data") 10 ++ [py "12345"]
  ++ repeat (py "Trade") 14 ++ [py " Invest "; py "boom"].

(** The sample requests: two chunks to Hindi, a short one by a short code,
    the same with another source language, and one to an unknown language. *)
Definition demo_request : TranslationRequest :=
  mk_request demo_texts_two_chunks "en" "hin_Deva".

Definition demo_request_hi : TranslationRequest :=
  mk_request demo_texts "en" "hi".

Definition demo_request_hi_fr : TranslationRequest :=
  mk_request demo_texts "fr" "hi".

Definition demo_request_unknown : TranslationRequest :=
  mk_request demo_texts "en" "xx".

Definition run_demo (fault : Site -> option exn)
    (request : TranslationRequest) : Result TranslationResponse * nat :=
  translate_texts ascii_only ascii_only demo_engine fault request 0.

(** ** Vocabulary of the places *)

(** No exception but the engine's, at any place. *)
Definition no_raise : ApiFull.Place -> option exn := fun _ => None.

(** No place raises. *)
Definition quiet (place : ApiFull.Place -> option exn) : Prop :=
  forall p, place p = None.

(** What [Api] sees of the places. *)
Definition sites_of (place : ApiFull.Place -> option exn)
  : Site -> option exn :=
  fun site => place (ApiFull.of_site site).

(** No place raises but, possibly, the five of [Api]. *)
Definition quiet_beyond_sites (place : ApiFull.Place -> option exn) : Prop :=
  forall p, ApiFull.beyond_sites p = true -> place p = None.

(** What lines 402-408 make of [batch_results]. *)
Definition fit_length (batch_results texts_to_translate : list str)
  : list str :=
  if negb (length batch_results =? length texts_to_translate) then
    if length batch_results <? length texts_to_translate
    then batch_results ++ skipn (length batch_results) texts_to_translate
    else slice batch_results 0 (length texts_to_translate)
  else batch_results.

(** A computation raises, or returns, from the state [s]. *)
Definition raises {St A} (m : M St A) (s : St) : Prop :=
  exists e s', m s = (Raise e, s').

Definition returns {St A} (m : M St A) (s : St) : Prop :=
  exists a s', m s = (Ok a, s').

(** Sample runs with an exception at one place. *)
Definition unexpected : exn := Exception (py "unexpected").

Definition raise_in_filter : ApiFull.Place -> option exn :=
  fun p => match p with ApiFull.ModelFilter => Some unexpected | _ => None end.

Definition raise_at_model_entry : ApiFull.Place -> option exn :=
  fun p => match p with ApiFull.ModelEntry => Some unexpected | _ => None end.

Definition raise_at_endpoint_entry : ApiFull.Place -> option exn :=
  fun p => match p with ApiFull.EndpointEntry => Some unexpected | _ => None end.

Definition raise_at_gpu_entry : ApiFull.Place -> option exn :=
  fun p => match p with ApiFull.GpuEntry => Some unexpected | _ => None end.

Definition run_full (place : ApiFull.Place -> option exn)
    (request : TranslationRequest) : Result TranslationResponse * nat :=
  ApiFull.translate_texts ascii_only ascii_only demo_engine place request 0.

(** ** Vocabulary of the further properties *)

Section Calls.

Variable uni_isspace : char -> bool.
Variable uni_isalpha : char -> bool.

(** What the response holds for a text when every text sent to the engine
    comes back as [f] of it. *)
Definition answer (f : str -> str) (text : str) : str :=
  if is_translatable uni_isspace uni_isalpha text
  then f (strip uni_isspace text)
  else text.

(** The calls of the engine the pipeline makes: a batch of one to
    [MODEL_BATCH_SIZE] texts, each of them trimmed and accepted by the
    filter, from English to a canonical tag. *)
Definition admissible_call (batch : list str) (src_lang tgt_lang : str)
  : Prop :=
  batch <> [] /\
  length batch <= MODEL_BATCH_SIZE /\
  Forall (fun text => strip uni_isspace text = text /\
                      translatable uni_isalpha text = true) batch /\
  src_lang = py "eng_Latn" /\
  In tgt_lang valid_target_langs.

End Calls.

(** The number of calls of the engine and the number of texts it was sent. *)
Record Tally : Type := { calls : nat; submitted : nat }.

(** The engine, with a tally of its use beside its state. *)
Definition tallied {St} (engine : list str -> str -> str -> M St (list str))
  : list str -> str -> str -> M (St * Tally) (list str) :=
  fun batch src_lang tgt_lang st =>
    let (r, s') := engine batch src_lang tgt_lang (fst st) in
    (r, (s', {| calls := S (calls (snd st));
                submitted := submitted (snd st) + length batch |})).

(** More test doubles: an engine that answers text by text, one that is
    down, and one that refuses what the pipeline never asks. *)
Definition tag_engine (batch : list str) (src_lang tgt_lang : str)
  : M nat (list str) :=
  fun n => (Ok (map (tagged tgt_lang) batch), S n).

Definition down_engine (batch : list str) (src_lang tgt_lang : str)
  : M nat (list str) :=
  fun n => (Raise (Exception (py "model not loaded")), S n).

Definition picky_engine (batch : list str) (src_lang tgt_lang : str)
  : M nat (list str) :=
  if str_eqb src_lang (py "eng_Latn") && negb (length batch =? 0)
  then demo_engine batch src_lang tgt_lang
  else raise (Exception (py "unsupported call")).

(** A request whose texts hold no letter. *)
Definition demo_request_numbers : TranslationRequest :=
  mk_request [py "12345"; py " 42 "; py "---"; []] "en" "hi".

(** * Properties *)

(** ** Strings, sets and dictionaries *)

Lemma str_eqb_eq (a b : str) : str_eqb a b = true <-> a = b.
Proof.
  revert b; induction a as [|x a IH]; intros [|y b]; simpl;
    try (split; [discriminate | discriminate]); try tauto.
  rewrite andb_true_iff, N.eqb_eq, IH.
  split; [intros [-> ->]; reflexivity | intros H; inversion H; auto].
Qed.

Lemma str_in_In (key : str) (s : list str) :
  str_in key s = true <-> In key s.
Proof.
  unfold str_in. rewrite existsb_exists. split.
  - intros (x & Hin & Heq). apply str_eqb_eq in Heq. now subst.
  - intros Hin. exists key. split; [assumption | now apply str_eqb_eq].
Qed.

Lemma str_in_false (key : str) (s : list str) :
  str_in key s = false <-> ~ In key s.
Proof.
  rewrite <- str_in_In. destruct (str_in key s); split; intros H;
    try reflexivity; try discriminate; try (intros H'; discriminate).
  exfalso; now apply H.
Qed.

Lemma dict_get_None (d : list (str * str)) (key : str) :
  dict_get d key = None <-> ~ In key (map fst d).
Proof.
  induction d as [|[k v] d IH]; simpl.
  - tauto.
  - destruct (str_eqb key k) eqn:E.
    + apply str_eqb_eq in E. subst. split; [discriminate | intros H; exfalso; auto].
    + rewrite IH. split.
      * intros H [H1 | H1]; [| now apply H].
        subst. assert (str_eqb key key = true) by now apply str_eqb_eq.
        congruence.
      * intros H H1. apply H. now right.
Qed.

Lemma dict_get_Some_In (d : list (str * str)) (key v : str) :
  dict_get d key = Some v -> In v (map snd d).
Proof.
  induction d as [|[k w] d IH]; simpl; [discriminate |].
  destruct (str_eqb key k); [intros [= ->]; now left | right; auto].
Qed.

(** Every tag the lookup can give is a non-empty string, so the test
    [not tgt_lang] of line 319 singles out the unknown identifiers. *)
Lemma resolve_tgt_lang_nonempty (target_language tgt_lang : str) :
  resolve_tgt_lang target_language = Some tgt_lang ->
  falsy (Some tgt_lang) = false.
Proof.
  unfold resolve_tgt_lang, falsy.
  assert (Hv : forallb (fun t => negb (length t =? 0)) valid_target_langs = true)
    by reflexivity.
  assert (Hm : forallb (fun t => negb (length t =? 0)) (map snd tgt_lang_map) = true)
    by reflexivity.
  rewrite forallb_forall in Hv, Hm.
  destruct (str_in target_language valid_target_langs) eqn:E.
  - intros [= <-]. apply str_in_In in E. apply Hv in E.
    now apply negb_true_iff in E.
  - intros H. apply dict_get_Some_In in H. apply Hm in H.
    now apply negb_true_iff in H.
Qed.

Lemma resolve_tgt_lang_None (target_language : str) :
  resolve_tgt_lang target_language = None <->
  ~ In target_language valid_target_langs /\
  ~ In target_language (map fst tgt_lang_map).
Proof.
  unfold resolve_tgt_lang.
  destruct (str_in target_language valid_target_langs) eqn:E.
  - apply str_in_In in E. split; [discriminate | tauto].
  - apply str_in_false in E. rewrite dict_get_None. tauto.
Qed.

(** ** Lists *)

Lemma skipn_nth_error {A} (l : list A) (n : nat) (x : A) :
  nth_error l n = Some x -> skipn n l = x :: skipn (S n) l.
Proof.
  revert l; induction n as [|n IH]; intros [|y l]; simpl; try discriminate.
  - now intros [= ->].
  - intros H. now rewrite (IH _ H).
Qed.

Lemma pad_results_spec {A} (results batch_texts : list A) :
  pad_results results batch_texts
  = Ok (results ++ skipn (length results) batch_texts).
Proof.
  funelim (pad_results results batch_texts).
  - rewrite skipn_all2 by lia. now rewrite app_nil_r.
  - rewrite H. rewrite length_app; simpl.
    unfold getitem in Heq.
    destruct (nth_error batch_texts (length results)) eqn:E; [|discriminate].
    injection Heq as ->.
    rewrite (skipn_nth_error _ _ E), <- app_assoc. simpl.
    now rewrite Nat.add_1_r.
  - unfold getitem in Heq.
    destruct (nth_error batch_texts (length results)) eqn:E; [discriminate|].
    apply nth_error_None in E. lia.
Qed.

(** ** [range] and the chunks *)

Lemma ceil_div_0 (b : nat) : ceil_div 0 (S b) = 0.
Proof. unfold ceil_div. apply Nat.div_small. lia. Qed.

Lemma ceil_div_step (x b : nat) :
  0 < x -> ceil_div x (S b) = S (ceil_div (x - S b) (S b)).
Proof.
  intros Hx. unfold ceil_div.
  destruct (le_lt_dec (S b) x) as [Hle | Hlt].
  - replace (x + S b - 1) with ((x - S b + S b - 1) + 1 * S b) by lia.
    rewrite Nat.div_add by lia. lia.
  - replace (x - S b) with 0 by lia.
    rewrite (Nat.div_small (0 + S b - 1)) by lia.
    symmetry. apply (Nat.div_unique _ _ _ (x - 1)); lia.
Qed.

(** [ceil_div n b] is the least number of groups of [b] that hold [n]. *)
Lemma ceil_div_spec (n b : nat) :
  n <= ceil_div n (S b) * S b /\ ceil_div n (S b) * S b < n + S b.
Proof.
  unfold ceil_div.
  pose proof (Nat.div_mod_eq (n + S b - 1) (S b)) as E.
  pose proof (Nat.mod_upper_bound (n + S b - 1) (S b)) as U.
  nia.
Qed.

Lemma py_range_unfold (start stop k : nat) :
  py_range start stop (S k)
  = if start <? stop then start :: py_range (start + S k) stop (S k) else [].
Proof.
  rewrite (py_range_equation_2 start stop k).
  destruct (lt_dec start stop) as [H | H]; simpl.
  - apply Nat.ltb_lt in H. now rewrite H.
  - apply Nat.ltb_nlt in H. now rewrite H.
Qed.

Lemma py_range_closed_form (stop b : nat) :
  forall n start, stop - start <= n ->
  py_range start stop (S b)
  = map (fun k => start + k * S b) (seq 0 (ceil_div (stop - start) (S b))).
Proof.
  induction n as [|n IH]; intros start Hn; rewrite py_range_unfold.
  - replace (start <? stop) with false by (symmetry; apply Nat.ltb_ge; lia).
    replace (stop - start) with 0 by lia. now rewrite ceil_div_0.
  - destruct (start <? stop) eqn:E.
    + apply Nat.ltb_lt in E.
      rewrite ceil_div_step by lia. simpl seq. simpl map.
      rewrite IH by lia.
      replace (stop - (start + S b)) with (stop - start - S b) by lia.
      rewrite <- seq_shift, map_map. f_equal; [lia |].
      apply map_ext. intros k. lia.
    + apply Nat.ltb_ge in E.
      replace (stop - start) with 0 by lia. now rewrite ceil_div_0.
Qed.

Lemma py_range_0 (stop b : nat) :
  py_range 0 stop (S b) = map (fun k => k * S b) (seq 0 (ceil_div stop (S b))).
Proof.
  rewrite py_range_closed_form with (n := stop) by lia.
  now rewrite Nat.sub_0_r.
Qed.

Lemma py_range_lt (stop b i : nat) :
  In i (py_range 0 stop (S b)) -> i < stop.
Proof.
  rewrite py_range_0, in_map_iff. intros (k & <- & Hk).
  apply in_seq in Hk. pose proof (ceil_div_spec stop b). nia.
Qed.

Lemma slice_length {A} (l : list A) (i b : nat) :
  length (slice l i (i + b)) = Nat.min b (length l - i).
Proof.
  unfold slice. rewrite length_firstn, length_skipn.
  replace (i + b - i) with b by lia. reflexivity.
Qed.

Lemma concat_slices {A} (l : list A) (b : nat) :
  forall n start, length l - start <= n ->
  concat (map (fun i => slice l i (i + S b)) (py_range start (length l) (S b)))
  = skipn start l.
Proof.
  induction n as [|n IH]; intros start Hn; rewrite py_range_unfold.
  - replace (start <? length l) with false by (symmetry; apply Nat.ltb_ge; lia).
    simpl. rewrite skipn_all2 by lia. reflexivity.
  - destruct (start <? length l) eqn:E.
    + apply Nat.ltb_lt in E. cbn [map concat]. rewrite IH by lia.
      unfold slice. replace (start + S b - start) with (S b) by lia.
      transitivity (firstn (S b) (skipn start l) ++ skipn (S b) (skipn start l));
        [| apply firstn_skipn].
      f_equal. rewrite skipn_skipn. f_equal. lia.
    + apply Nat.ltb_ge in E. simpl. rewrite skipn_all2 by lia. reflexivity.
Qed.

Lemma chunks_of_concat (filtered_texts : list str) :
  concat (chunks_of filtered_texts) = filtered_texts.
Proof.
  unfold chunks_of, MODEL_BATCH_SIZE.
  now rewrite concat_slices with (n := length filtered_texts) by lia.
Qed.

Lemma chunks_of_length (filtered_texts : list str) :
  length (chunks_of filtered_texts)
  = ceil_div (length filtered_texts) MODEL_BATCH_SIZE.
Proof.
  unfold chunks_of, MODEL_BATCH_SIZE.
  now rewrite py_range_0, !length_map, length_seq.
Qed.

Lemma chunks_of_nth (filtered_texts : list str) (k : nat) (c : list str) :
  nth_error (chunks_of filtered_texts) k = Some c ->
  k * MODEL_BATCH_SIZE < length filtered_texts /\
  c = slice filtered_texts (k * MODEL_BATCH_SIZE)
        (k * MODEL_BATCH_SIZE + MODEL_BATCH_SIZE).
Proof.
  unfold chunks_of, MODEL_BATCH_SIZE. rewrite py_range_0, map_map.
  intros H.
  assert (H' : k < length (map (fun x => slice filtered_texts (x * 24) (x * 24 + 24))
                         (seq 0 (ceil_div (length filtered_texts) 24))))
    by (apply nth_error_Some; congruence).
  rewrite length_map, length_seq in H'.
  rewrite nth_error_map, nth_error_seq in H.
  apply Nat.ltb_lt in H' as H''. rewrite H'' in H. simpl in H.
  injection H as <-.
  pose proof (ceil_div_spec (length filtered_texts) 23). split; [nia | reflexivity].
Qed.

Lemma chunks_of_bounds (filtered_texts : list str) :
  Forall (fun c => 0 < length c <= MODEL_BATCH_SIZE) (chunks_of filtered_texts).
Proof.
  apply Forall_forall. intros c Hc.
  apply In_nth_error in Hc as [k Hk].
  apply chunks_of_nth in Hk as [Hlt ->].
  rewrite slice_length. unfold MODEL_BATCH_SIZE in *. lia.
Qed.

(** ** The pipeline, function by function *)

Section Properties.

Variable uni_isspace : char -> bool.
Variable uni_isalpha : char -> bool.
Variable EngineState : Type.
Variable engine : list str -> str -> str -> M EngineState (list str).
Variable fault : Site -> option exn.

Local Abbreviation strip := (PyStr.strip uni_isspace).
Local Abbreviation is_translatable := (is_translatable uni_isspace uni_isalpha).
Local Abbreviation translatable_indices :=
  (translatable_indices uni_isspace uni_isalpha).
Local Abbreviation filter_loop := (Api.filter_loop uni_isspace uni_isalpha).
Local Abbreviation _translate_batch_on_gpu :=
  (Api._translate_batch_on_gpu engine).
Local Abbreviation batch_loop := (Api.batch_loop engine).
Local Abbreviation translate_texts_with_model_body :=
  (Api.translate_texts_with_model_body uni_isspace uni_isalpha engine fault).
Local Abbreviation translate_texts_with_model :=
  (Api.translate_texts_with_model uni_isspace uni_isalpha engine fault).
Local Abbreviation translate_texts_body :=
  (Api.translate_texts_body uni_isspace uni_isalpha engine fault).
Local Abbreviation translate_texts :=
  (Api.translate_texts uni_isspace uni_isalpha engine fault).

(** *** The repair and the output of one chunk *)

Lemma repair_length {A} (results batch_texts : list A) :
  length (repair results batch_texts) = length batch_texts.
Proof.
  unfold repair. rewrite length_firstn, length_app, length_skipn. lia.
Qed.

Lemma repair_same_length {A} (results batch_texts : list A) :
  length results = length batch_texts -> repair results batch_texts = results.
Proof.
  intros H. unfold repair. rewrite skipn_all2 by lia.
  rewrite app_nil_r, <- H. apply firstn_all.
Qed.

Lemma repair_truncate {A} (results batch_texts : list A) :
  length batch_texts <= length results ->
  repair results batch_texts = firstn (length batch_texts) results.
Proof.
  intros H. unfold repair. rewrite skipn_all2 by lia. now rewrite app_nil_r.
Qed.

Lemma repair_pad {A} (results batch_texts : list A) :
  length results <= length batch_texts ->
  repair results batch_texts
  = results ++ skipn (length results) batch_texts.
Proof.
  intros H. unfold repair. apply firstn_all2.
  rewrite length_app, length_skipn. lia.
Qed.

Lemma chunk_output_length (chunk : list str) (o : Result (list str)) :
  length (chunk_output chunk o) = length chunk.
Proof. destruct o; simpl; [apply repair_length | reflexivity]. Qed.

Lemma gpu_empty (src_lang tgt_lang : str) (s : EngineState) :
  _translate_batch_on_gpu [] src_lang tgt_lang s = (Ok [], s).
Proof. reflexivity. Qed.

Lemma gpu_spec (batch_texts : list str) (src_lang tgt_lang : str)
    (s : EngineState) :
  batch_texts <> [] ->
  _translate_batch_on_gpu batch_texts src_lang tgt_lang s
  = (Ok (chunk_output batch_texts (fst (engine batch_texts src_lang tgt_lang s))),
     snd (engine batch_texts src_lang tgt_lang s)).
Proof.
  intros Hne. unfold Api._translate_batch_on_gpu, try_except, bind.
  destruct (length batch_texts =? 0) eqn:E0.
  { apply Nat.eqb_eq, length_zero_iff_nil in E0. congruence. }
  destruct (engine batch_texts src_lang tgt_lang s) as [[results | e] s'];
    cbn [fst snd chunk_output].
  - destruct (length results =? length batch_texts) eqn:E; cbn [negb].
    + apply Nat.eqb_eq in E. unfold ret.
      now rewrite (repair_same_length _ _ E).
    + unfold lift, ret. rewrite pad_results_spec. unfold slice, repair.
      now rewrite Nat.sub_0_r.
  - destruct e; reflexivity.
Qed.

(** *** The loop over the chunks *)

Lemma engine_trace_length (chunks : list (list str)) (src_lang tgt_lang : str) :
  forall s, length (fst (engine_trace engine chunks src_lang tgt_lang s))
            = length chunks.
Proof.
  induction chunks as [|c chunks IH]; intros s; simpl; [reflexivity |].
  destruct (engine c src_lang tgt_lang s) as [o s'].
  specialize (IH s').
  destruct (engine_trace engine chunks src_lang tgt_lang s') as [os s''].
  simpl in *. now rewrite IH.
Qed.

Lemma batch_loop_spec (filtered_texts : list str) (src_lang tgt_lang : str) :
  forall starts all_translations s,
    Forall (fun i => i < length filtered_texts) starts ->
    let chunks :=
      map (fun i => slice filtered_texts i (i + MODEL_BATCH_SIZE)) starts in
    batch_loop starts filtered_texts src_lang tgt_lang all_translations s
    = (Ok (all_translations
           ++ concat (chunk_outputs chunks
                        (fst (engine_trace engine chunks src_lang tgt_lang s)))),
       snd (engine_trace engine chunks src_lang tgt_lang s)).
Proof.
  induction starts as [|i starts IH]; intros acc s Hall; cbn zeta.
  - simpl. unfold ret. now rewrite app_nil_r.
  - inversion Hall as [|? ? Hi Hrest]; subst.
    cbn [map Api.batch_loop engine_trace].
    set (c := slice filtered_texts i (i + MODEL_BATCH_SIZE)).
    assert (Hc : c <> []).
    { intros E. apply (f_equal (@length _)) in E. subst c.
      rewrite slice_length in E. unfold MODEL_BATCH_SIZE in E.
      cbn [length] in E. lia. }
    unfold bind at 1. unfold try_except at 1. unfold bind at 1.
    rewrite (gpu_spec src_lang tgt_lang s Hc).
    destruct (engine c src_lang tgt_lang s) as [o s']. cbn [fst snd ret].
    rewrite (IH _ s' Hrest). cbn zeta.
    destruct (engine_trace engine _ src_lang tgt_lang s') as [os s''].
    cbn [fst snd]. unfold chunk_outputs. cbn [combine map concat fst snd].
    now rewrite <- app_assoc.
Qed.

(** *** Trimming *)

Lemma lstrip_spec (text : str) :
  exists pre,
    text = pre ++ lstrip uni_isspace text /\
    forallb (isspace uni_isspace) pre = true /\
    (forall c rest, lstrip uni_isspace text = c :: rest ->
                    isspace uni_isspace c = false).
Proof.
  induction text as [|c text (pre & E & Hpre & Hhd)]; simpl.
  - exists []. repeat split; [discriminate].
  - destruct (isspace uni_isspace c) eqn:Ec.
    + exists (c :: pre). simpl. rewrite Ec, Hpre. repeat split; [| exact Hhd].
      now f_equal.
    + exists []. repeat split. now intros c' rest [= <- _].
Qed.

Lemma forallb_rev {A} (f : A -> bool) (l : list A) :
  forallb f (rev l) = forallb f l.
Proof.
  induction l as [|x l IH]; simpl; [reflexivity |].
  rewrite forallb_app, IH. simpl. rewrite andb_true_r. apply andb_comm.
Qed.

Lemma rstrip_spec (text : str) :
  exists post,
    text = rstrip uni_isspace text ++ post /\
    forallb (isspace uni_isspace) post = true /\
    (forall c rest, rstrip uni_isspace text = rest ++ [c] ->
                    isspace uni_isspace c = false).
Proof.
  unfold rstrip.
  destruct (lstrip_spec (rev text)) as (pre & E & Hpre & Hhd).
  exists (rev pre). split; [| split].
  - now apply rev_eq_app.
  - now rewrite forallb_rev.
  - intros c rest H. apply (f_equal (@rev _)) in H.
    rewrite rev_involutive, rev_app_distr in H. simpl in H. eauto.
Qed.

(** [strip] removes white space at both ends, and nothing else. *)
Lemma strip_spec (text : str) :
  exists pre post,
    text = pre ++ strip text ++ post /\
    forallb (isspace uni_isspace) pre = true /\
    forallb (isspace uni_isspace) post = true /\
    (forall c rest, strip text = c :: rest -> isspace uni_isspace c = false) /\
    (forall c rest, strip text = rest ++ [c] -> isspace uni_isspace c = false).
Proof.
  unfold PyStr.strip.
  destruct (lstrip_spec text) as (pre & E & Hpre & Hhd).
  destruct (rstrip_spec (lstrip uni_isspace text)) as (post & E' & Hpost & Hlast).
  exists pre, post. split; [| split; [exact Hpre | split; [exact Hpost | split]]].
  - now rewrite <- E', <- E.
  - intros c rest H. rewrite H in E'. simpl in E'. eauto.
  - exact Hlast.
Qed.

(** *** The filter *)

Lemma is_translatable_eq (text : str) :
  is_translatable text = translatable uni_isalpha (strip text).
Proof. reflexivity. Qed.

Lemma translatable_indices_eq (texts : list str) :
  translatable_indices texts
  = filter (fun i => is_translatable (nth i texts [])) (seq 0 (length texts)).
Proof. reflexivity. Qed.

Lemma filter_loop_closed_form :
  forall rest pre filtered_texts text_indices,
    let keep := fun i => is_translatable (nth i (pre ++ rest) []) in
    let kept := filter keep (seq (length pre) (length rest)) in
    filter_loop (length pre) rest filtered_texts text_indices
    = (filtered_texts ++ map (fun i => strip (nth i (pre ++ rest) [])) kept,
       text_indices ++ kept).
Proof.
  induction rest as [|text rest IH]; intros pre f idx; cbn zeta.
  - simpl. now rewrite !app_nil_r.
  - cbn [Api.filter_loop length seq filter].
    rewrite nth_middle, is_translatable_eq.
    specialize (IH (pre ++ [text])).
    rewrite length_app, Nat.add_1_r, <- app_assoc in IH. cbn [app] in IH.
    cbn zeta in IH. rewrite !IH.
    destruct (translatable uni_isalpha (strip text)) eqn:E.
    + cbn [map]. rewrite nth_middle, <- !app_assoc. reflexivity.
    + reflexivity.
Qed.

Lemma filter_loop_spec (texts : list str) :
  filter_loop 0 texts [] []
  = (map (fun i => strip (nth i texts [])) (translatable_indices texts),
     translatable_indices texts).
Proof. exact (filter_loop_closed_form texts [] [] []). Qed.

Lemma translatable_indices_In (texts : list str) (i : nat) :
  In i (translatable_indices texts)
  <-> i < length texts /\ is_translatable (nth i texts []) = true.
Proof.
  rewrite translatable_indices_eq, filter_In, in_seq.
  split; intros [H1 H2]; (split; [lia | assumption]).
Qed.

Lemma translatable_indices_NoDup (texts : list str) :
  NoDup (translatable_indices texts).
Proof. apply NoDup_filter, seq_NoDup. Qed.

(** *** The reassembly *)

Lemma update_length {A} (l : list A) (i : nat) (v : A) :
  length (update l i v) = length l.
Proof.
  revert i; induction l as [|x l IH]; intros [|i]; simpl; auto.
Qed.

Lemma nth_error_update_eq {A} (l : list A) (i : nat) (v : A) :
  i < length l -> nth_error (update l i v) i = Some v.
Proof.
  revert i; induction l as [|x l IH]; intros [|i]; simpl; try lia; auto.
  intros H. apply IH. lia.
Qed.

Lemma nth_error_update_neq {A} (l : list A) (i j : nat) (v : A) :
  i <> j -> nth_error (update l i v) j = nth_error l j.
Proof.
  revert i j; induction l as [|x l IH]; intros [|i] [|j]; simpl; auto;
    try congruence.
Qed.

Lemma scatter_pure_length (pairs : list (nat * str)) :
  forall final_results,
    length (scatter_pure final_results pairs) = length final_results.
Proof.
  induction pairs as [|[i v] pairs IH]; intros final; simpl; [reflexivity |].
  unfold scatter_pure in *. simpl. now rewrite IH, update_length.
Qed.

Lemma scatter_pure_untouched (pairs : list (nat * str)) (i : nat) :
  forall final_results,
    ~ In i (map fst pairs) ->
    nth_error (scatter_pure final_results pairs) i = nth_error final_results i.
Proof.
  induction pairs as [|[j v] pairs IH]; intros final Hni; [reflexivity |].
  unfold scatter_pure in *. simpl in *.
  rewrite IH by tauto. apply nth_error_update_neq. tauto.
Qed.

Lemma scatter_pure_written (pairs : list (nat * str)) (i : nat) (v : str) :
  forall final_results,
    NoDup (map fst pairs) -> In (i, v) pairs -> i < length final_results ->
    nth_error (scatter_pure final_results pairs) i = Some v.
Proof.
  induction pairs as [|[j w] pairs IH]; intros final Hnd Hin Hlt; [easy |].
  simpl in Hnd. inversion Hnd as [|? ? Hnotin Hnd']; subst.
  replace (scatter_pure final ((j, w) :: pairs))
    with (scatter_pure (update final j w) pairs) by reflexivity.
  destruct Hin as [[= -> ->] | Hin].
  - rewrite scatter_pure_untouched by assumption.
    now apply nth_error_update_eq.
  - apply IH; [assumption | assumption | now rewrite update_length].
Qed.

Lemma scatter_ok (pairs : list (nat * str)) :
  forall final_results,
    Forall (fun p => fst p < length final_results) pairs ->
    scatter final_results pairs = Ok (scatter_pure final_results pairs).
Proof.
  induction pairs as [|[j w] pairs IH]; intros final Hall; [reflexivity |].
  inversion Hall as [|? ? Hj Hrest]; subst. simpl in Hj.
  cbn [scatter]. unfold setitem.
  apply Nat.ltb_lt in Hj as Hj'. rewrite Hj'.
  rewrite IH; [reflexivity |].
  rewrite update_length. exact Hrest.
Qed.

Lemma combine_map_fst {A B} (l : list A) (l' : list B) :
  length l = length l' -> map fst (combine l l') = l.
Proof.
  revert l'; induction l as [|x l IH]; intros [|y l']; simpl; try easy.
  intros [= H]. now rewrite IH.
Qed.

Lemma combine_nth_error_In {A B} (l : list A) (l' : list B) (j : nat) x y :
  nth_error l j = Some x -> nth_error l' j = Some y -> In (x, y) (combine l l').
Proof.
  revert l l'; induction j as [|j IH]; intros [|a l] [|b l']; simpl;
    try discriminate.
  - intros [= ->] [= ->]. now left.
  - intros H1 H2. right. eauto.
Qed.

Lemma combine_In_fst_bound {B} (l : list nat) (l' : list B) (n : nat) :
  Forall (fun i => i < n) l ->
  Forall (fun p : nat * B => fst p < n) (combine l l').
Proof.
  intros H. apply Forall_forall. intros [i v] Hin.
  apply in_combine_l in Hin. rewrite Forall_forall in H. now apply H.
Qed.

Lemma chunk_outputs_concat_length (chunks : list (list str)) :
  forall outcomes,
    length outcomes = length chunks ->
    length (concat (chunk_outputs chunks outcomes)) = length (concat chunks).
Proof.
  induction chunks as [|c chunks IH]; intros [|o os]; simpl; try easy.
  intros [= H]. unfold chunk_outputs in *. simpl.
  rewrite !length_app, chunk_output_length. now rewrite IH.
Qed.

(** *** [translate_texts_with_model], evaluated *)

Lemma translatable_indices_bound (texts : list str) :
  Forall (fun i => i < length texts) (translatable_indices texts).
Proof.
  apply Forall_forall. intros i Hi. now apply translatable_indices_In in Hi.
Qed.

Lemma py_range_bound (n : nat) :
  Forall (fun i => i < n) (py_range 0 n MODEL_BATCH_SIZE).
Proof. apply Forall_forall. intros i. apply py_range_lt. Qed.

Lemma with_model_body_eval (texts : list str) (target_language : str)
    (s : EngineState) :
  translate_texts_with_model_body texts target_language s
  = match fault InResolve with
    | Some e => (Raise e, s)
    | None =>
      match resolve_tgt_lang target_language with
      | None => (Ok texts, s)
      | Some tgt_lang =>
        match fault InFilter with
        | Some e => (Raise e, s)
        | None =>
          let indices := translatable_indices texts in
          let filtered := map (fun i => strip (nth i texts [])) indices in
          if length filtered =? 0 then (Ok texts, s)
          else
            let tr := engine_trace engine (chunks_of filtered)
                        (py "eng_Latn") tgt_lang s in
            match fault InAssemble with
            | Some e => (Raise e, snd tr)
            | None =>
              (Ok (scatter_pure texts
                     (combine indices
                        (concat (chunk_outputs (chunks_of filtered) (fst tr))))),
               snd tr)
            end
        end
      end
    end.
Proof.
  unfold Api.translate_texts_with_model_body, checkpoint.
  destruct (fault InResolve) as [e|]; [reflexivity |].
  unfold bind at 1. cbn [ret].
  destruct (resolve_tgt_lang target_language) as [tgt|] eqn:R; [| reflexivity].
  rewrite (resolve_tgt_lang_nonempty _ R).
  destruct (fault InFilter) as [e|]; [reflexivity |].
  unfold bind at 1. cbn [ret].
  rewrite filter_loop_spec. cbn zeta.
  set (indices := translatable_indices texts).
  set (filtered := map (fun i => strip (nth i texts [])) indices).
  destruct (length filtered =? 0); [reflexivity |].
  unfold bind at 1.
  rewrite (batch_loop_spec filtered (py "eng_Latn") tgt [] s
             (py_range_bound (length filtered))).
  cbn zeta. fold (chunks_of filtered). cbn [app].
  destruct (engine_trace engine (chunks_of filtered) (py "eng_Latn") tgt s)
    as [os s'] eqn:T.
  cbn [fst snd].
  destruct (fault InAssemble) as [e|]; [reflexivity |].
  unfold bind, ret, lift.
  rewrite scatter_ok; [reflexivity |].
  apply combine_In_fst_bound, translatable_indices_bound.
Qed.

Lemma with_model_eval (texts : list str) (target_language : str)
    (s : EngineState) :
  translate_texts_with_model texts target_language s
  = match translate_texts_with_model_body texts target_language s with
    | (Ok out, s') => (Ok out, s')
    | (Raise _, s') => (Ok texts, s')
    end.
Proof. reflexivity. Qed.

(** The function always returns, and what it returns is the input with
    some of the positions kept by the filter overwritten. *)
Lemma with_model_shape (texts : list str) (target_language : str)
    (s : EngineState) :
  exists out s',
    translate_texts_with_model texts target_language s = (Ok out, s') /\
    (out = texts \/
     exists all_translations,
       out = scatter_pure texts
               (combine (translatable_indices texts) all_translations)).
Proof.
  rewrite with_model_eval, with_model_body_eval.
  destruct (fault InResolve); [eauto |].
  destruct (resolve_tgt_lang target_language); [| eauto].
  destruct (fault InFilter); [eauto |].
  cbn zeta.
  destruct (length _ =? 0); [eauto |].
  destruct (fault InAssemble); eauto 6.
Qed.

Lemma scatter_combine_untouched (texts all_translations : list str) (i : nat) :
  ~ In i (translatable_indices texts) ->
  nth_error
    (scatter_pure texts (combine (translatable_indices texts) all_translations)) i
  = nth_error texts i.
Proof.
  intros Hni. apply scatter_pure_untouched.
  rewrite in_map_iff. intros ([j v] & <- & Hin).
  apply in_combine_l in Hin. now apply Hni.
Qed.

Lemma scatter_combine_written (texts all_translations : list str) (j idx : nat) :
  length all_translations = length (translatable_indices texts) ->
  nth_error (translatable_indices texts) j = Some idx ->
  nth_error
    (scatter_pure texts (combine (translatable_indices texts) all_translations))
    idx
  = nth_error all_translations j.
Proof.
  intros Hlen Hj.
  assert (Hjlt : j < length all_translations).
  { rewrite Hlen. apply nth_error_Some. congruence. }
  destruct (nth_error all_translations j) as [v|] eqn:Ev;
    [| apply nth_error_None in Ev; lia].
  apply scatter_pure_written.
  - rewrite combine_map_fst by congruence. apply translatable_indices_NoDup.
  - eapply combine_nth_error_In; eassumption.
  - apply nth_error_In in Hj. now apply translatable_indices_In in Hj.
Qed.

Lemma with_model_length (texts : list str) (target_language : str)
    (s : EngineState) :
  exists out s',
    translate_texts_with_model texts target_language s = (Ok out, s') /\
    length out = length texts.
Proof.
  destruct (with_model_shape texts target_language s)
    as (out & s' & E & [-> | [T ->]]).
  - now exists texts, s'.
  - eexists _, s'. split; [exact E | apply scatter_pure_length].
Qed.

(** *** The endpoint, evaluated *)

Lemma endpoint_body_eval (request : TranslationRequest) (s : EngineState) :
  exists out s',
    translate_texts_with_model (texts request) (target_language request) s
    = (Ok out, s') /\
    length out = length (texts request) /\
    translate_texts_body request s
    = match fault InEndpointBefore with
      | Some e => (Raise e, s)
      | None =>
        match fault InEndpointAfter with
        | Some e => (Raise e, s')
        | None => (Ok {| translations := out; error := None |}, s')
        end
      end.
Proof.
  destruct (with_model_length (texts request) (target_language request) s)
    as (out & s' & E & Hlen).
  exists out, s'. split; [exact E | split; [exact Hlen |]].
  unfold Api.translate_texts_body, checkpoint.
  destruct (fault InEndpointBefore) as [e|]; [reflexivity |].
  unfold bind at 1. cbn [ret]. unfold bind at 1. rewrite E.
  apply Nat.eqb_eq in Hlen. rewrite Hlen. cbn [negb].
  destruct (fault InEndpointAfter) as [e|]; reflexivity.
Qed.

Lemma endpoint_eval (request : TranslationRequest) (s : EngineState) :
  translate_texts request s
  = match translate_texts_body request s with
    | (Ok resp, s') => (Ok resp, s')
    | (Raise e, s') =>
        (Ok {| translations := texts request; error := Some (exn_str e) |}, s')
    end.
Proof. reflexivity. Qed.

(** ** The claims *)

(** C1 (length invariant). For every request, every engine (one that
    succeeds, raises, times out or returns lists of the wrong length) and
    every unexpected exception, the endpoint returns a response whose
    [translations] are exactly as many as the [texts] of the request; an
    empty list of texts gives an empty list of translations. *)
Theorem length_invariant (request : TranslationRequest) (s : EngineState) :
  exists resp s',
    translate_texts request s = (Ok resp, s') /\
    length (translations resp) = length (texts request) /\
    (texts request = [] -> translations resp = []).
Proof.
  assert (H : exists resp s',
             translate_texts request s = (Ok resp, s') /\
             length (translations resp) = length (texts request)).
  { rewrite endpoint_eval.
    destruct (endpoint_body_eval request s) as (out & s' & _ & Hlen & ->).
    destruct (fault InEndpointBefore); [eauto |].
    destruct (fault InEndpointAfter); eauto. }
  destruct H as (resp & s' & E & Hlen).
  exists resp, s'. split; [exact E | split; [exact Hlen |]].
  intros Hnil. rewrite Hnil in Hlen. now apply length_zero_iff_nil.
Qed.

Lemma with_model_unresolved (texts : list str) (target_language : str)
    (s : EngineState) :
  resolve_tgt_lang target_language = None ->
  translate_texts_with_model texts target_language s = (Ok texts, s).
Proof.
  intros R. rewrite with_model_eval, with_model_body_eval, R.
  now destruct (fault InResolve).
Qed.

(** C3 (unresolved language). When the target language is neither a
    canonical tag nor a key of the table of short codes, the endpoint
    returns the request's texts, element for element, and does not call the
    engine; the response has no [error] field, unless an exception is raised
    in the endpoint's own code around the call of
    [translate_texts_with_model]. *)
Theorem unresolved_language_passthrough (request : TranslationRequest)
    (s : EngineState) :
  ~ In (target_language request) valid_target_langs ->
  ~ In (target_language request) (map fst tgt_lang_map) ->
  exists resp,
    translate_texts request s = (Ok resp, s) /\
    translations resp = texts request /\
    (error resp = None <->
     fault InEndpointBefore = None /\ fault InEndpointAfter = None).
Proof.
  intros Hv Hm.
  assert (R : resolve_tgt_lang (target_language request) = None)
    by now apply resolve_tgt_lang_None.
  rewrite endpoint_eval.
  destruct (endpoint_body_eval request s) as (out & s' & E & _ & ->).
  rewrite with_model_unresolved in E by exact R. injection E as <- <-.
  destruct (fault InEndpointBefore) as [e1|].
  - eexists. split; [reflexivity |]. cbn [translations error].
    split; [reflexivity |]. split; [discriminate | intros [H _]; discriminate].
  - destruct (fault InEndpointAfter) as [e2|].
    + eexists. split; [reflexivity |]. cbn [translations error].
      split; [reflexivity |]. split; [discriminate | intros [_ H]; discriminate].
    + eexists. split; [reflexivity |]. cbn [translations error]. tauto.
Qed.

(** C4 (filter). Trimming removes the white space at both ends of a text
    and nothing else. A text is translatable exactly when its trimmed form
    is not empty, has at most 1000 characters and holds a letter; the loop of
    the filter keeps the positions of exactly these texts; ["12345"] is
    passed through and ["A"] is translatable. *)
Theorem filter_classification :
  (forall text,
     exists pre post,
       text = pre ++ strip text ++ post /\
       forallb (isspace uni_isspace) pre = true /\
       forallb (isspace uni_isspace) post = true /\
       (forall c rest, strip text = c :: rest -> isspace uni_isspace c = false) /\
       (forall c rest, strip text = rest ++ [c] -> isspace uni_isspace c = false)) /\
  (forall text,
     is_translatable text = true <->
     0 < length (strip text) /\ length (strip text) <= 1000 /\
     exists c, In c (strip text) /\ isalpha uni_isalpha c = true) /\
  (forall texts i,
     In i (snd (filter_loop 0 texts [] [])) <->
     i < length texts /\ is_translatable (nth i texts []) = true) /\
  is_translatable (py "12345") = false /\
  is_translatable (py "A") = true.
Proof.
  split; [exact strip_spec |].
  split; [| split; [| split; reflexivity]].
  - intros text. rewrite is_translatable_eq. unfold translatable, any_isalpha.
    rewrite !andb_true_iff, Nat.ltb_lt, Nat.leb_le, existsb_exists. tauto.
  - intros texts i. rewrite filter_loop_spec. cbn [snd].
    apply translatable_indices_In.
Qed.

(** C5 (passthrough positions). Whatever the target language, the engine
    and the exceptions, a text the filter does not keep is found in the
    response at its own index, as it was sent, untrimmed. *)
Theorem passthrough_preserved (request : TranslationRequest) (s : EngineState)
    (idx : nat) (text : str) :
  nth_error (texts request) idx = Some text ->
  is_translatable text = false ->
  exists resp s',
    translate_texts request s = (Ok resp, s') /\
    nth_error (translations resp) idx = Some text.
Proof.
  intros Hidx Hpass.
  assert (Hni : ~ In idx (translatable_indices (texts request))).
  { rewrite translatable_indices_In. intros [_ Ht].
    replace (nth idx (texts request) []) with text in Ht
      by (symmetry; now apply nth_error_nth).
    congruence. }
  rewrite endpoint_eval.
  destruct (endpoint_body_eval request s) as (out & s' & E & _ & ->).
  destruct (fault InEndpointBefore); [eauto |].
  destruct (fault InEndpointAfter); [eauto |].
  exists {| translations := out; error := None |}, s'.
  split; [reflexivity |]. cbn [translations].
  destruct (with_model_shape (texts request) (target_language request) s)
    as (out' & s'' & E' & Hshape).
  rewrite E in E'. injection E' as <- <-.
  destruct Hshape as [-> | [T ->]]; [exact Hidx |].
  now rewrite scatter_combine_untouched.
Qed.

(** C6 (repair of a result of the wrong length). [_translate_batch_on_gpu]
    always returns, and returns as many texts as the batch holds. When the
    engine returns [results] for a batch, what is returned is [results] cut
    to the length of the batch when it is too long, and [results] followed
    by the batch's own texts from position [len(results)] on when it is too
    short. *)
Theorem batch_result_repaired (batch_texts : list str) (src_lang tgt_lang : str)
    (s : EngineState) :
  exists out s',
    _translate_batch_on_gpu batch_texts src_lang tgt_lang s = (Ok out, s') /\
    length out = length batch_texts /\
    (forall results s1,
        batch_texts <> [] ->
        engine batch_texts src_lang tgt_lang s = (Ok results, s1) ->
        s' = s1 /\
        (length batch_texts <= length results ->
         out = firstn (length batch_texts) results) /\
        (length results <= length batch_texts ->
         out = results ++ skipn (length results) batch_texts)).
Proof.
  destruct batch_texts as [|t batch].
  - exists [], s. rewrite gpu_empty. repeat split; congruence.
  - set (b := t :: batch).
    assert (Hne : b <> []) by (subst b; congruence).
    eexists _, _. split; [apply (gpu_spec src_lang tgt_lang s Hne) |].
    split; [apply chunk_output_length |].
    intros results s1 _ E. rewrite E. cbn [fst snd chunk_output].
    split; [reflexivity | split; intros H].
    + now apply repair_truncate.
    + now apply repair_pad.
Qed.

(** *** Positions in the chunks and in their outputs *)

Lemma slice_nth {A} (l : list A) (i b p : nat) :
  p < b -> nth_error (slice l i (i + b)) p = nth_error l (i + p).
Proof.
  intros Hp. unfold slice. replace (i + b - i) with b by lia.
  rewrite nth_error_firstn, nth_error_skipn.
  apply Nat.ltb_lt in Hp. now rewrite Hp.
Qed.

Lemma chunks_of_nth_iff (filtered_texts : list str) (k : nat) :
  nth_error (chunks_of filtered_texts) k
  = if k * MODEL_BATCH_SIZE <? length filtered_texts
    then Some (slice filtered_texts (k * MODEL_BATCH_SIZE)
                 (k * MODEL_BATCH_SIZE + MODEL_BATCH_SIZE))
    else None.
Proof.
  destruct (nth_error (chunks_of filtered_texts) k) as [c|] eqn:E.
  - apply chunks_of_nth in E as [Hlt ->].
    apply Nat.ltb_lt in Hlt. now rewrite Hlt.
  - apply nth_error_None in E. rewrite chunks_of_length in E.
    pose proof (ceil_div_spec (length filtered_texts) 23) as [H1 H2].
    unfold MODEL_BATCH_SIZE in *.
    replace (k * 24 <? length filtered_texts) with false; [reflexivity |].
    symmetry. apply Nat.ltb_ge. nia.
Qed.

Lemma chunks_of_full_before (filtered_texts : list str) (k k' : nat)
    (c c' : list str) :
  nth_error (chunks_of filtered_texts) k = Some c ->
  nth_error (chunks_of filtered_texts) k' = Some c' ->
  k' < k ->
  length c' = MODEL_BATCH_SIZE.
Proof.
  intros Hk Hk' Hlt.
  apply chunks_of_nth in Hk as [Hb _]. apply chunks_of_nth in Hk' as [_ ->].
  rewrite slice_length. unfold MODEL_BATCH_SIZE in *. lia.
Qed.

Lemma chunk_outputs_nth (chunks : list (list str)) :
  forall outcomes k c o,
    nth_error chunks k = Some c -> nth_error outcomes k = Some o ->
    nth_error (chunk_outputs chunks outcomes) k = Some (chunk_output c o).
Proof.
  induction chunks as [|c0 chunks IH]; intros [|o0 os] [|k] c o; simpl;
    try discriminate.
  - now intros [= ->] [= ->].
  - intros Hc Ho. now apply IH.
Qed.

Lemma concat_nth_uniform {A} (b : nat) (outs : list (list A)) :
  forall k out p,
    (forall k' out', k' < k -> nth_error outs k' = Some out' -> length out' = b) ->
    nth_error outs k = Some out ->
    p < length out ->
    nth_error (concat outs) (k * b + p) = nth_error out p.
Proof.
  induction outs as [|o0 outs IH]; intros [|k] out p Hfull Hk Hp; simpl in *;
    try discriminate.
  - injection Hk as ->. now apply nth_error_app1.
  - assert (H0 : length o0 = b) by (apply (Hfull 0); [lia | reflexivity]).
    rewrite nth_error_app2 by lia.
    replace (b + k * b + p - length o0) with (k * b + p) by lia.
    apply IH; [| assumption | assumption].
    intros k' out' Hlt Hk'. apply (Hfull (S k')); [lia | assumption].
Qed.

Lemma all_translations_nth (filtered_texts : list str)
    (outcomes : list (Result (list str))) (k p : nat) (c : list str)
    (o : Result (list str)) :
  nth_error (chunks_of filtered_texts) k = Some c ->
  nth_error outcomes k = Some o ->
  p < length c ->
  nth_error (concat (chunk_outputs (chunks_of filtered_texts) outcomes))
    (k * MODEL_BATCH_SIZE + p)
  = nth_error (chunk_output c o) p.
Proof.
  intros Hc Ho Hp.
  apply concat_nth_uniform.
  - intros k' out' Hlt Hk'.
    destruct (nth_error (chunks_of filtered_texts) k') as [c'|] eqn:Ec'.
    + destruct (nth_error outcomes k') as [o'|] eqn:Eo'.
      * rewrite (chunk_outputs_nth _ _ _ Ec' Eo') in Hk'. injection Hk' as <-.
        rewrite chunk_output_length.
        eapply chunks_of_full_before; [exact Hc | exact Ec' | exact Hlt].
      * exfalso. apply nth_error_None in Eo'.
        assert (k < length outcomes) by (apply nth_error_Some; congruence). lia.
    + exfalso. apply nth_error_None in Ec'.
      assert (k < length (chunks_of filtered_texts))
        by (apply nth_error_Some; congruence). lia.
  - now apply chunk_outputs_nth.
  - now rewrite chunk_output_length.
Qed.

(** C7 (batching). The loop of line 351 cuts the filtered texts into
    consecutive chunks of at least one and at most [MODEL_BATCH_SIZE] texts
    whose concatenation is the filtered list; there are
    [ceil (n / MODEL_BATCH_SIZE)] of them; the loop returns the
    concatenation of the outputs of the chunks, which has [n] texts, and the
    text at position [p] of chunk [k] and its output both sit at position
    [k * MODEL_BATCH_SIZE + p]. *)
Theorem batching_correct (filtered_texts : list str) (src_lang tgt_lang : str)
    (s : EngineState) :
  let n := length filtered_texts in
  let chunks := chunks_of filtered_texts in
  let outcomes := fst (engine_trace engine chunks src_lang tgt_lang s) in
  concat chunks = filtered_texts /\
  Forall (fun c => 0 < length c <= MODEL_BATCH_SIZE) chunks /\
  length chunks = ceil_div n MODEL_BATCH_SIZE /\
  n <= length chunks * MODEL_BATCH_SIZE < n + MODEL_BATCH_SIZE /\
  exists all_translations s',
    batch_loop (py_range 0 n MODEL_BATCH_SIZE) filtered_texts
      src_lang tgt_lang [] s
    = (Ok all_translations, s') /\
    all_translations = concat (chunk_outputs chunks outcomes) /\
    length all_translations = n /\
    forall k chunk p,
      nth_error chunks k = Some chunk ->
      p < length chunk ->
      nth_error chunk p
      = nth_error filtered_texts (k * MODEL_BATCH_SIZE + p) /\
      exists outcome,
        nth_error outcomes k = Some outcome /\
        nth_error all_translations (k * MODEL_BATCH_SIZE + p)
        = nth_error (chunk_output chunk outcome) p.
Proof.
  cbn zeta.
  split; [apply chunks_of_concat |].
  split; [apply chunks_of_bounds |].
  split; [apply chunks_of_length |].
  split.
  { rewrite chunks_of_length.
    pose proof (ceil_div_spec (length filtered_texts) 23).
    unfold MODEL_BATCH_SIZE. lia. }
  pose proof (batch_loop_spec filtered_texts src_lang tgt_lang [] s
                (py_range_bound (length filtered_texts))) as E.
  cbn zeta in E. fold (chunks_of filtered_texts) in E. cbn [app] in E.
  pose proof (engine_trace_length (chunks_of filtered_texts) src_lang tgt_lang s)
    as Hlen.
  eexists _, _. split; [exact E |]. split; [reflexivity |]. split.
  { rewrite chunk_outputs_concat_length by exact Hlen.
    now rewrite chunks_of_concat. }
  intros k chunk p Hk Hp. split.
  - pose proof (chunks_of_bounds filtered_texts) as Hb.
    rewrite Forall_forall in Hb. specialize (Hb _ (nth_error_In _ _ Hk)).
    apply chunks_of_nth in Hk as [_ ->]. apply slice_nth.
    rewrite slice_length in Hp. lia.
  - destruct (nth_error (fst (engine_trace engine (chunks_of filtered_texts)
                                 src_lang tgt_lang s)) k) as [o|] eqn:Eo.
    + exists o. split; [reflexivity |]. now apply all_translations_nth.
    + exfalso. apply nth_error_None in Eo. rewrite Hlen in Eo.
      assert (k < length (chunks_of filtered_texts))
        by (apply nth_error_Some; congruence). lia.
Qed.

(** *** A run without unexpected exception, evaluated *)

Lemma chunks_of_nil : chunks_of [] = [].
Proof. reflexivity. Qed.

Lemma normal_run_eval (request : TranslationRequest) (s : EngineState)
    (tgt_lang : str) :
  resolve_tgt_lang (target_language request) = Some tgt_lang ->
  fault_free fault ->
  let indices := translatable_indices (texts request) in
  let filtered := map (fun i => strip (nth i (texts request) [])) indices in
  let chunks := chunks_of filtered in
  let tr := engine_trace engine chunks (py "eng_Latn") tgt_lang s in
  translate_texts request s
  = (Ok {| translations :=
             scatter_pure (texts request)
               (combine indices (concat (chunk_outputs chunks (fst tr))));
           error := None |},
     snd tr).
Proof.
  intros R Hff. cbn zeta.
  rewrite endpoint_eval.
  destruct (endpoint_body_eval request s) as (out & s' & E & _ & ->).
  rewrite !Hff.
  rewrite with_model_eval, with_model_body_eval, R, !Hff in E. cbn zeta in E.
  remember (map (fun i => strip (nth i (texts request) []))
              (translatable_indices (texts request))) as filtered eqn:EF.
  destruct filtered as [|t filtered].
  - cbn [length Nat.eqb] in E. injection E as <- <-.
    rewrite chunks_of_nil. cbn [engine_trace fst snd chunk_outputs combine map concat].
    rewrite combine_nil. reflexivity.
  - cbn [length Nat.eqb] in E.
    destruct (engine_trace engine (chunks_of (t :: filtered)) (py "eng_Latn")
                tgt_lang s) as [os s''].
    cbn [fst snd] in *. injection E as <- <-. reflexivity.
Qed.

Lemma repair_nth {A} (results batch_texts : list A) (p : nat) :
  p < length batch_texts ->
  nth_error (repair results batch_texts) p
  = if p <? length results then nth_error results p
    else nth_error batch_texts p.
Proof.
  intros Hp. unfold repair. rewrite nth_error_firstn.
  apply Nat.ltb_lt in Hp as Hp'. rewrite Hp'.
  rewrite nth_error_app. destruct (p <? length results) eqn:E; [reflexivity |].
  apply Nat.ltb_ge in E. rewrite nth_error_skipn. f_equal. lia.
Qed.

(** Where the output of a chunk lands in the response. *)
Lemma normal_run_position (request : TranslationRequest) (s : EngineState)
    (tgt_lang : str) :
  resolve_tgt_lang (target_language request) = Some tgt_lang ->
  fault_free fault ->
  let indices := translatable_indices (texts request) in
  let filtered := map (fun i => strip (nth i (texts request) [])) indices in
  let chunks := chunks_of filtered in
  let outcomes := fst (engine_trace engine chunks (py "eng_Latn") tgt_lang s) in
  exists resp s',
    translate_texts request s = (Ok resp, s') /\
    error resp = None /\
    forall k chunk outcome p,
      nth_error chunks k = Some chunk ->
      nth_error outcomes k = Some outcome ->
      p < length chunk ->
      exists idx,
        nth_error indices (k * MODEL_BATCH_SIZE + p) = Some idx /\
        nth_error (translations resp) idx
        = nth_error (chunk_output chunk outcome) p.
Proof.
  intros R Hff. cbn zeta.
  set (indices := translatable_indices (texts request)).
  set (filtered := map (fun i => strip (nth i (texts request) [])) indices).
  eexists _, _. split; [apply (normal_run_eval request s R Hff) |].
  split; [reflexivity |].
  cbn zeta. fold indices. fold filtered. cbn [translations].
  set (outcomes := fst (engine_trace engine (chunks_of filtered)
                          (py "eng_Latn") tgt_lang s)).
  intros k chunk outcome p Hk Ho Hp.
  assert (Hlen : length (concat (chunk_outputs (chunks_of filtered) outcomes))
                 = length indices).
  { subst outcomes. rewrite chunk_outputs_concat_length
      by apply engine_trace_length.
    rewrite chunks_of_concat. apply length_map. }
  pose proof (@all_translations_nth filtered outcomes k p chunk outcome Hk Ho Hp)
    as Hnth.
  assert (Hj : k * MODEL_BATCH_SIZE + p < length indices).
  { rewrite <- Hlen. apply nth_error_Some. rewrite Hnth.
    apply nth_error_Some. now rewrite chunk_output_length. }
  destruct (nth_error indices (k * MODEL_BATCH_SIZE + p)) as [idx|] eqn:Ei;
    [| apply nth_error_None in Ei; lia].
  exists idx. split; [reflexivity |].
  pose proof (scatter_combine_written (texts request) _ _ Hlen Ei) as Hw.
  fold indices in Hw. now rewrite Hw, Hnth.
Qed.

(** C2 (chunk fallback). In a run with a known target language and no
    unexpected exception, take any chunk and what the engine did with it.
    Every position of the chunk belongs to one input index. If the engine
    raised (a timeout included), the response holds at that index the
    chunk's own text; if the engine returned as many results as the chunk
    has texts, the response holds the engine's result for that position,
    whatever happened to the other chunks. *)
Theorem chunk_fallback_isolated (request : TranslationRequest)
    (s : EngineState) (tgt_lang : str) :
  resolve_tgt_lang (target_language request) = Some tgt_lang ->
  fault_free fault ->
  let indices := translatable_indices (texts request) in
  let filtered := map (fun i => strip (nth i (texts request) [])) indices in
  let chunks := chunks_of filtered in
  let outcomes := fst (engine_trace engine chunks (py "eng_Latn") tgt_lang s) in
  exists resp s',
    translate_texts request s = (Ok resp, s') /\
    length outcomes = length chunks /\
    forall k chunk outcome p,
      nth_error chunks k = Some chunk ->
      nth_error outcomes k = Some outcome ->
      p < length chunk ->
      exists idx,
        nth_error indices (k * MODEL_BATCH_SIZE + p) = Some idx /\
        (forall e, outcome = Raise e ->
                   nth_error (translations resp) idx = nth_error chunk p) /\
        (forall results, outcome = Ok results ->
                         length results = length chunk ->
                         nth_error (translations resp) idx = nth_error results p).
Proof.
  intros R Hff. cbn zeta.
  destruct (normal_run_position request s R Hff) as (resp & s' & E & _ & Hpos).
  cbn zeta in Hpos.
  exists resp, s'. split; [exact E |].
  split; [apply engine_trace_length |].
  intros k chunk outcome p Hk Ho Hp.
  destruct (Hpos k chunk outcome p Hk Ho Hp) as (idx & Hi & Hr).
  exists idx. split; [exact Hi |]. rewrite Hr. split.
  - intros e ->. reflexivity.
  - intros results -> Hlen. cbn [chunk_output]. now rewrite repair_same_length.
Qed.

(** C9 (trimmed form of a translatable text). In a run with a known target
    language and no unexpected exception, a text the filter keeps is
    submitted to the engine trimmed, in some chunk at some position. If the
    engine raises on that chunk, or returns too few results to reach that
    position, the response holds at the text's index the trimmed text; else
    it holds the engine's result for that position. So when trimming
    changes the text and the engine raises, the response does not hold the
    text as it was sent. *)
Theorem fallback_is_trimmed (request : TranslationRequest) (s : EngineState)
    (tgt_lang : str) (idx : nat) (text : str) :
  resolve_tgt_lang (target_language request) = Some tgt_lang ->
  fault_free fault ->
  nth_error (texts request) idx = Some text ->
  is_translatable text = true ->
  let indices := translatable_indices (texts request) in
  let filtered := map (fun i => strip (nth i (texts request) [])) indices in
  let chunks := chunks_of filtered in
  let outcomes := fst (engine_trace engine chunks (py "eng_Latn") tgt_lang s) in
  exists resp s' k p chunk outcome,
    translate_texts request s = (Ok resp, s') /\
    nth_error chunks k = Some chunk /\
    nth_error chunk p = Some (strip text) /\
    nth_error outcomes k = Some outcome /\
    nth_error indices (k * MODEL_BATCH_SIZE + p) = Some idx /\
    (forall e, outcome = Raise e ->
               nth_error (translations resp) idx = Some (strip text)) /\
    (forall results, outcome = Ok results ->
       nth_error (translations resp) idx
       = if p <? length results then nth_error results p
         else Some (strip text)) /\
    (strip text <> text ->
     forall e, outcome = Raise e ->
               nth_error (translations resp) idx <> Some text).
Proof.
  intros R Hff Hidx Htr. cbn zeta.
  destruct (normal_run_position request s R Hff) as (resp & s' & E & _ & Hpos).
  cbn zeta in Hpos.
  set (indices := translatable_indices (texts request)) in *.
  set (filtered := map (fun i => strip (nth i (texts request) [])) indices) in *.
  set (outcomes := fst (engine_trace engine (chunks_of filtered)
                          (py "eng_Latn") tgt_lang s)) in *.
  assert (Hnth : nth idx (texts request) [] = text) by now apply nth_error_nth.
  assert (Hin : In idx indices).
  { apply translatable_indices_In. split.
    - apply nth_error_Some. congruence.
    - now rewrite Hnth. }
  apply In_nth_error in Hin as [j Hj].
  assert (Hjlt : j < length filtered).
  { unfold filtered. rewrite length_map. apply nth_error_Some. congruence. }
  assert (HF : nth_error filtered j = Some (strip text)).
  { unfold filtered. rewrite nth_error_map, Hj. cbn [option_map]. now rewrite Hnth. }
  pose proof (Nat.div_mod_eq j MODEL_BATCH_SIZE) as Hdm.
  pose proof (Nat.mod_upper_bound j MODEL_BATCH_SIZE) as Hmod.
  set (k := j / MODEL_BATCH_SIZE) in *. set (p := j mod MODEL_BATCH_SIZE) in *.
  assert (Hp24 : p < MODEL_BATCH_SIZE) by (apply Hmod; discriminate).
  assert (Hjk : k * MODEL_BATCH_SIZE + p = j) by lia.
  set (chunk := slice filtered (k * MODEL_BATCH_SIZE)
                  (k * MODEL_BATCH_SIZE + MODEL_BATCH_SIZE)).
  assert (Hk : nth_error (chunks_of filtered) k = Some chunk).
  { rewrite chunks_of_nth_iff.
    replace (k * MODEL_BATCH_SIZE <? length filtered) with true; [reflexivity |].
    symmetry. apply Nat.ltb_lt. lia. }
  assert (Hc : nth_error chunk p = Some (strip text)).
  { unfold chunk. rewrite slice_nth by exact Hp24. now rewrite Hjk. }
  assert (Hp : p < length chunk) by (apply nth_error_Some; congruence).
  destruct (nth_error outcomes k) as [outcome|] eqn:Ho.
  2:{ exfalso. apply nth_error_None in Ho. unfold outcomes in Ho.
      rewrite engine_trace_length in Ho.
      assert (k < length (chunks_of filtered))
        by (apply nth_error_Some; congruence). lia. }
  destruct (Hpos k chunk outcome p Hk Ho Hp) as (idx' & Hi & Hr).
  rewrite Hjk, Hj in Hi. injection Hi as <-.
  exists resp, s', k, p, chunk, outcome.
  split; [exact E |]. split; [exact Hk |]. split; [exact Hc |].
  split; [exact Ho |]. split; [now rewrite Hjk |].
  rewrite Hr. split; [| split].
  - intros e ->. exact Hc.
  - intros results ->. cbn [chunk_output]. rewrite repair_nth by exact Hp.
    now rewrite Hc.
  - intros Hne e ->. cbn [chunk_output]. rewrite Hc. congruence.
Qed.

End Properties.

(** ** The source language *)

Section SourceLanguage.

Variable uni_isspace : char -> bool.
Variable uni_isalpha : char -> bool.
Variable EngineState : Type.
Variable engine : list str -> str -> str -> M EngineState (list str).
Variable fault : Site -> option exn.

(** The engine, with its source tag set to ["eng_Latn"]. *)
Local Abbreviation from_english :=
  (fun batch (_ : str) tgt_lang => engine batch (py "eng_Latn") tgt_lang).

Lemma engine_trace_from_english (chunks : list (list str)) (tgt_lang : str) :
  forall s,
    engine_trace from_english chunks (py "eng_Latn") tgt_lang s
    = engine_trace engine chunks (py "eng_Latn") tgt_lang s.
Proof.
  induction chunks as [|c chunks IH]; intros s; simpl; [reflexivity |].
  destruct (engine c (py "eng_Latn") tgt_lang s) as [o s']. now rewrite IH.
Qed.

Lemma with_model_from_english (texts : list str) (target_language : str)
    (s : EngineState) :
  translate_texts_with_model uni_isspace uni_isalpha from_english fault
    texts target_language s
  = translate_texts_with_model uni_isspace uni_isalpha engine fault
      texts target_language s.
Proof.
  rewrite !with_model_eval, !with_model_body_eval.
  destruct (fault InResolve); [reflexivity |].
  destruct (resolve_tgt_lang target_language); [| reflexivity].
  destruct (fault InFilter); [reflexivity |].
  cbn zeta. now rewrite engine_trace_from_english.
Qed.

(** C10 (the source language is ignored). Two requests with the same texts
    and the same target language get the same response from the same state
    of the engine, whatever their source languages (and request
    identifiers); and the run is the run of the pipeline over the engine
    whose source tag is fixed to ["eng_Latn"]. *)
Theorem source_language_ignored (r1 r2 : TranslationRequest) (s : EngineState) :
  texts r1 = texts r2 ->
  target_language r1 = target_language r2 ->
  translate_texts uni_isspace uni_isalpha engine fault r1 s
  = translate_texts uni_isspace uni_isalpha engine fault r2 s /\
  translate_texts uni_isspace uni_isalpha engine fault r1 s
  = translate_texts uni_isspace uni_isalpha from_english fault r1 s.
Proof.
  intros Ht Hl. split.
  - unfold translate_texts, translate_texts_body. now rewrite Ht, Hl.
  - rewrite !endpoint_eval.
    destruct (endpoint_body_eval uni_isspace uni_isalpha engine fault r1 s)
      as (out & s' & E & _ & ->).
    destruct (endpoint_body_eval uni_isspace uni_isalpha from_english fault r1 s)
      as (out' & s'' & E' & _ & ->).
    rewrite with_model_from_english, E in E'. now injection E' as <- <-.
Qed.

End SourceLanguage.

(** ** The pipeline with every place

    [ApiFull], evaluated function by function; its agreement with [Api]
    when no place beyond the five of [Api] raises; and the [error] field
    of the endpoint. *)

Section EveryPlace.

Variable uni_isspace : char -> bool.
Variable uni_isalpha : char -> bool.
Variable EngineState : Type.
Variable engine : list str -> str -> str -> M EngineState (list str).
Variable place : ApiFull.Place -> option exn.

Local Abbreviation at_ := (ApiFull.at_ (EngineState := EngineState) place).
Local Abbreviation _translate_batch_on_gpu :=
  (ApiFull._translate_batch_on_gpu engine place).
Local Abbreviation batch_loop := (ApiFull.batch_loop engine place).
Local Abbreviation translate_texts_with_model_body :=
  (ApiFull.translate_texts_with_model_body uni_isspace uni_isalpha engine place).
Local Abbreviation translate_texts_with_model :=
  (ApiFull.translate_texts_with_model uni_isspace uni_isalpha engine place).
Local Abbreviation translate_texts_body :=
  (ApiFull.translate_texts_body uni_isspace uni_isalpha engine place).
Local Abbreviation translate_texts :=
  (ApiFull.translate_texts uni_isspace uni_isalpha engine place).

Lemma at_eval (p : ApiFull.Place) (s : EngineState) :
  at_ p s = match place p with
            | Some e => (Raise e, s)
            | None => (Ok tt, s)
            end.
Proof. unfold ApiFull.at_. now destruct (place p). Qed.

Lemma fit_length_length (batch_results texts : list str) :
  length (fit_length batch_results texts) = length texts.
Proof.
  unfold fit_length.
  destruct (length batch_results =? length texts) eqn:E; cbn [negb].
  - now apply Nat.eqb_eq.
  - apply Nat.eqb_neq in E.
    destruct (length batch_results <? length texts) eqn:L.
    + apply Nat.ltb_lt in L. rewrite length_app, length_skipn. lia.
    + apply Nat.ltb_ge in L. unfold slice.
      rewrite length_firstn, length_skipn. lia.
Qed.

Lemma fit_length_same (batch_results texts : list str) :
  length batch_results = length texts ->
  fit_length batch_results texts = batch_results.
Proof.
  intros H. unfold fit_length. apply Nat.eqb_eq in H. now rewrite H.
Qed.

(** *** The functions, evaluated *)

Lemma full_gpu_eval (batch_texts : list str) (src_lang tgt_lang : str)
    (s : EngineState) :
  _translate_batch_on_gpu batch_texts src_lang tgt_lang s
  = let handler (bound : bool) (s' : EngineState) :=
      match place ApiFull.GpuHandler with
      | Some e => (Raise e, s')
      | None => if bound then (Ok batch_texts, s')
                else (Raise ApiFull.unbound_platform, s')
      end in
    match place ApiFull.GpuEntry with
    | Some _ => handler false s
    | None =>
      if length batch_texts =? 0 then (Ok [], s)
      else
        match place ApiFull.GpuPrologue with
        | Some _ => handler false s
        | None =>
          match engine batch_texts src_lang tgt_lang s with
          | (Raise _, s') => handler true s'
          | (Ok results, s') =>
            if length results =? length batch_texts then
              match place ApiFull.GpuEpilogue with
              | Some _ => handler true s'
              | None => (Ok results, s')
              end
            else
              match place ApiFull.GpuRepair with
              | Some _ => handler true s'
              | None =>
                match place ApiFull.GpuEpilogue with
                | Some _ => handler true s'
                | None => (Ok (repair results batch_texts), s')
                end
              end
          end
        end
    end.
Proof.
  cbn zeta.
  unfold ApiFull._translate_batch_on_gpu, ApiFull.gpu_entry,
    ApiFull.gpu_translate, ApiFull.gpu_except, ApiFull.gpu_handler,
    try_except, bind, ApiFull.at_, lift, ret, raise.
  destruct (place ApiFull.GpuEntry) as [e|].
  { destruct e; destruct (place ApiFull.GpuHandler); reflexivity. }
  destruct (length batch_texts =? 0); [reflexivity |].
  destruct (place ApiFull.GpuPrologue) as [e|].
  { destruct e; destruct (place ApiFull.GpuHandler); reflexivity. }
  destruct (engine batch_texts src_lang tgt_lang s) as [[results | e] s'].
  2:{ destruct e; destruct (place ApiFull.GpuHandler); reflexivity. }
  destruct (length results =? length batch_texts); cbn [negb].
  - destruct (place ApiFull.GpuEpilogue) as [e|]; [| reflexivity].
    destruct e; destruct (place ApiFull.GpuHandler); reflexivity.
  - destruct (place ApiFull.GpuRepair) as [e|].
    { destruct e; destruct (place ApiFull.GpuHandler); reflexivity. }
    rewrite pad_results_spec.
    destruct (place ApiFull.GpuEpilogue) as [e|].
    { destruct e; destruct (place ApiFull.GpuHandler); reflexivity. }
    unfold slice, repair. now rewrite Nat.sub_0_r.
Qed.


Lemma full_gpu_length (batch_texts : list str) (src_lang tgt_lang : str)
    (s : EngineState) (out : list str) (s' : EngineState) :
  _translate_batch_on_gpu batch_texts src_lang tgt_lang s = (Ok out, s') ->
  length out = length batch_texts.
Proof.
  rewrite full_gpu_eval. cbn zeta.
  assert (H : forall (bound : bool) (s1 : EngineState),
             match place ApiFull.GpuHandler with
             | Some e => (Raise e, s1)
             | None => if bound then (Ok batch_texts, s1)
                       else (Raise ApiFull.unbound_platform, s1)
             end = (Ok out, s') -> length out = length batch_texts).
  { intros bound s1. destruct (place ApiFull.GpuHandler); [discriminate |].
    destruct bound; [| discriminate]. now intros [= <- _]. }
  destruct (place ApiFull.GpuEntry); [solve [apply (H false) | apply (H true)] |].
  destruct (length batch_texts =? 0) eqn:E0.
  { apply Nat.eqb_eq in E0. intros [= <- _]. now rewrite E0. }
  destruct (place ApiFull.GpuPrologue); [solve [apply (H false) | apply (H true)] |].
  destruct (engine batch_texts src_lang tgt_lang s) as [[results | e] s1];
    [| apply (H true)].
  destruct (length results =? length batch_texts) eqn:E.
  - destruct (place ApiFull.GpuEpilogue); [solve [apply (H false) | apply (H true)] |].
    apply Nat.eqb_eq in E. now intros [= <- _].
  - destruct (place ApiFull.GpuRepair); [solve [apply (H false) | apply (H true)] |].
    destruct (place ApiFull.GpuEpilogue); [solve [apply (H false) | apply (H true)] |].
    intros [= <- _]. apply repair_length.
Qed.

Lemma full_with_model_eval (texts : list str) (target_language : str)
    (s : EngineState) :
  translate_texts_with_model texts target_language s
  = match place ApiFull.ModelEntry with
    | Some e => (Raise e, s)
    | None =>
      match translate_texts_with_model_body texts target_language s with
      | (Ok out, s') => (Ok out, s')
      | (Raise _, s') =>
        match place ApiFull.ModelHandler with
        | Some e => (Raise e, s')
        | None => (Ok texts, s')
        end
      end
    end.
Proof.
  unfold ApiFull.translate_texts_with_model, bind, try_except, ApiFull.at_.
  destruct (place ApiFull.ModelEntry); [reflexivity |]. cbn [ret].
  destruct (translate_texts_with_model_body texts target_language s)
    as [[out | e] s']; [reflexivity |].
  now destruct (place ApiFull.ModelHandler).
Qed.

Lemma full_body_eval (request : TranslationRequest) (s : EngineState) :
  translate_texts_body request s
  = match place ApiFull.EndpointBefore with
    | Some e => (Raise e, s)
    | None =>
      match translate_texts_with_model (texts request)
              (target_language request) s with
      | (Raise e, s') => (Raise e, s')
      | (Ok out, s') =>
        match place ApiFull.EndpointAfter with
        | Some e => (Raise e, s')
        | None =>
          (Ok {| translations := fit_length out (texts request);
                 error := None |}, s')
        end
      end
    end.
Proof.
  unfold ApiFull.translate_texts_body, bind, ApiFull.at_. cbn zeta.
  destruct (place ApiFull.EndpointBefore); [reflexivity |]. cbn [ret].
  destruct (translate_texts_with_model (texts request)
              (target_language request) s) as [[out | e] s']; [| reflexivity].
  now destruct (place ApiFull.EndpointAfter).
Qed.

Lemma full_endpoint_eval (request : TranslationRequest) (s : EngineState) :
  translate_texts request s
  = match place ApiFull.EndpointEntry with
    | Some e => (Raise e, s)
    | None =>
      match translate_texts_body request s with
      | (Ok resp, s') => (Ok resp, s')
      | (Raise e, s') =>
        match place ApiFull.EndpointHandler with
        | Some e' => (Raise e', s')
        | None =>
          (Ok {| translations := texts request;
                 error := Some (exn_str e) |}, s')
        end
      end
    end.
Proof.
  unfold ApiFull.translate_texts, bind, try_except, ApiFull.at_.
  destruct (place ApiFull.EndpointEntry); [reflexivity |]. cbn [ret].
  destruct (translate_texts_body request s) as [[resp | e] s'];
    [reflexivity |].
  now destruct (place ApiFull.EndpointHandler).
Qed.

(** The [try] body of the endpoint returns responses without an [error]
    field only, as long as the request's texts. *)
Lemma full_body_returns (request : TranslationRequest) (s : EngineState)
    (resp : TranslationResponse) (s' : EngineState) :
  translate_texts_body request s = (Ok resp, s') ->
  error resp = None /\
  length (translations resp) = length (texts request).
Proof.
  rewrite full_body_eval.
  destruct (place ApiFull.EndpointBefore); [discriminate |].
  destruct (translate_texts_with_model _ _ s) as [[out | e] s1];
    [| discriminate].
  destruct (place ApiFull.EndpointAfter); [discriminate |].
  intros [= <- _]. split; [reflexivity | apply fit_length_length].
Qed.

(** Which exceptions reach the handler of the endpoint. *)
Lemma full_body_raises_iff (request : TranslationRequest) (s : EngineState) :
  raises (translate_texts_body request) s <->
  place ApiFull.EndpointBefore <> None \/
  place ApiFull.ModelEntry <> None \/
  (raises (translate_texts_with_model_body (texts request)
             (target_language request)) s /\
   place ApiFull.ModelHandler <> None) \/
  place ApiFull.EndpointAfter <> None.
Proof.
  unfold raises. rewrite full_body_eval, full_with_model_eval.
  destruct (place ApiFull.EndpointBefore) as [e1|].
  { split; [left; discriminate | eauto]. }
  destruct (place ApiFull.ModelEntry) as [e2|].
  { split; [right; left; discriminate | eauto]. }
  destruct (translate_texts_with_model_body (texts request)
              (target_language request) s) as [[out | e] s1].
  - destruct (place ApiFull.EndpointAfter) as [e3|].
    + split; [right; right; right; discriminate | eauto].
    + split; [intros (e & s2 & [=]) |].
      intros [H | [H | [[(e & s2 & [=]) _] | H]]]; congruence.
  - destruct (place ApiFull.ModelHandler) as [e4|].
    + split; [| eauto]. intros _. right; right; left.
      split; [eauto | discriminate].
    + destruct (place ApiFull.EndpointAfter) as [e3|].
      * split; [right; right; right; discriminate | eauto].
      * split; [intros (e' & s2 & [=]) |].
        intros [H | [H | [[_ H] | H]]]; congruence.
Qed.

(** *** Agreement with [Api] *)

Section Agreement.

Hypothesis Hquiet : quiet_beyond_sites place.

Lemma full_gpu_agrees (batch_texts : list str) (src_lang tgt_lang : str)
    (s : EngineState) :
  _translate_batch_on_gpu batch_texts src_lang tgt_lang s
  = Api._translate_batch_on_gpu engine batch_texts src_lang tgt_lang s.
Proof.
  rewrite full_gpu_eval. cbn zeta.
  rewrite !Hquiet by reflexivity.
  destruct batch_texts as [|t batch]; [reflexivity |].
  rewrite (gpu_spec engine src_lang tgt_lang s (batch_texts := t :: batch))
    by discriminate.
  change (length (t :: batch) =? 0) with false. cbv iota.
  destruct (engine (t :: batch) src_lang tgt_lang s) as [[results | e] s'];
    cbn [fst snd chunk_output]; [| reflexivity].
  destruct (length results =? length (t :: batch)) eqn:E; [| reflexivity].
  apply Nat.eqb_eq in E. now rewrite (repair_same_length _ _ E).
Qed.

Lemma full_batch_loop_agrees (filtered_texts : list str)
    (src_lang tgt_lang : str) :
  forall starts all_translations s,
    batch_loop starts filtered_texts src_lang tgt_lang all_translations s
    = Api.batch_loop engine starts filtered_texts src_lang tgt_lang
        all_translations s.
Proof.
  induction starts as [|i starts IH]; intros acc s; [reflexivity |].
  cbn [ApiFull.batch_loop Api.batch_loop]. cbn zeta.
  unfold bind, try_except. rewrite !at_eval, !Hquiet by reflexivity.
  rewrite full_gpu_agrees.
  destruct (Api._translate_batch_on_gpu engine _ src_lang tgt_lang s)
    as [[chunk | e] s']; cbn [ret]; [apply IH |].
  rewrite at_eval, Hquiet by reflexivity. apply IH.
Qed.

Lemma full_with_model_body_agrees (texts : list str) (target_language : str)
    (s : EngineState) :
  translate_texts_with_model_body texts target_language s
  = Api.translate_texts_with_model_body uni_isspace uni_isalpha engine
      (sites_of place) texts target_language s.
Proof.
  unfold ApiFull.translate_texts_with_model_body,
    Api.translate_texts_with_model_body. cbn zeta.
  unfold bind, checkpoint, ApiFull.at_, sites_of. cbn [ApiFull.of_site].
  destruct (place ApiFull.ModelResolve); [reflexivity |]. cbn [ret].
  destruct (falsy (resolve_tgt_lang target_language)); [reflexivity |].
  destruct (resolve_tgt_lang target_language) as [tgt_lang|]; [| reflexivity].
  destruct (place ApiFull.ModelFilter); [reflexivity |]. cbn [ret].
  destruct (filter_loop uni_isspace uni_isalpha 0 texts [] [])
    as [filtered_texts text_indices].
  destruct (length filtered_texts =? 0); [reflexivity |].
  now rewrite full_batch_loop_agrees.
Qed.

Lemma full_with_model_agrees (texts : list str) (target_language : str)
    (s : EngineState) :
  translate_texts_with_model texts target_language s
  = Api.translate_texts_with_model uni_isspace uni_isalpha engine
      (sites_of place) texts target_language s.
Proof.
  unfold ApiFull.translate_texts_with_model, Api.translate_texts_with_model.
  unfold bind, try_except, ApiFull.at_.
  rewrite (Hquiet ApiFull.ModelEntry eq_refl),
    (Hquiet ApiFull.ModelHandler eq_refl). cbn [ret].
  rewrite full_with_model_body_agrees.
  now destruct (Api.translate_texts_with_model_body _ _ _ _ texts
                  target_language s) as [[out | e] s'].
Qed.

Lemma full_translate_texts_body_agrees (request : TranslationRequest)
    (s : EngineState) :
  translate_texts_body request s
  = Api.translate_texts_body uni_isspace uni_isalpha engine (sites_of place)
      request s.
Proof.
  unfold ApiFull.translate_texts_body, Api.translate_texts_body. cbn zeta.
  unfold bind, checkpoint, ApiFull.at_, sites_of. cbn [ApiFull.of_site].
  destruct (place ApiFull.EndpointBefore); [reflexivity |]. cbn [ret].
  now rewrite full_with_model_agrees.
Qed.

(** When no place beyond the five of [Api] raises, the endpoint is the one
    of [Api]. *)
Lemma full_translate_texts_agrees (request : TranslationRequest)
    (s : EngineState) :
  translate_texts request s
  = Api.translate_texts uni_isspace uni_isalpha engine (sites_of place)
      request s.
Proof.
  unfold ApiFull.translate_texts, Api.translate_texts.
  unfold bind, try_except, ApiFull.at_.
  rewrite (Hquiet ApiFull.EndpointEntry eq_refl),
    (Hquiet ApiFull.EndpointHandler eq_refl). cbn [ret].
  rewrite full_translate_texts_body_agrees.
  now destruct (Api.translate_texts_body _ _ _ _ request s)
    as [[resp | e] s'].
Qed.

End Agreement.

(** C8, amended (the [error] field). The response of [translate_texts] has
    an [error] field exactly when an exception reaches the handler of its
    [try] (and that handler completes): the field is then the message of
    the exception and the translations are the request's texts. The
    exceptions that reach this handler are the ones raised in the [try] body
    around the call of [translate_texts_with_model] (lines 388-390 and
    394-424), at line 286, before the [try] of [translate_texts_with_model],
    and in the handler of that [try] (line 371). An exception raised inside
    the [try] of [translate_texts_with_model], in the language lookup or the
    filter for instance, is caught there: when nothing else raises, the
    answer is the list of the request's texts with no [error] field. The
    endpoint gives no response at all when a statement before its [try]
    (lines 376-383) raises, or one of its handler (lines 427-428). *)
Theorem error_field_iff_handler_reached (request : TranslationRequest)
    (s : EngineState) :
  (forall resp s',
      translate_texts request s = (Ok resp, s') ->
      (error resp <> None <-> raises (translate_texts_body request) s) /\
      (forall e s1, translate_texts_body request s = (Raise e, s1) ->
                    error resp = Some (exn_str e) /\
                    translations resp = texts request)) /\
  (raises (translate_texts_body request) s <->
   place ApiFull.EndpointBefore <> None \/
   place ApiFull.ModelEntry <> None \/
   (raises (translate_texts_with_model_body (texts request)
              (target_language request)) s /\
    place ApiFull.ModelHandler <> None) \/
   place ApiFull.EndpointAfter <> None) /\
  (returns (translate_texts request) s <->
   place ApiFull.EndpointEntry = None /\
   (raises (translate_texts_body request) s ->
    place ApiFull.EndpointHandler = None)) /\
  (place ApiFull.EndpointEntry = None ->
   place ApiFull.EndpointBefore = None ->
   place ApiFull.ModelEntry = None ->
   place ApiFull.ModelHandler = None ->
   place ApiFull.EndpointAfter = None ->
   exists out s',
     translate_texts request s
     = (Ok {| translations := out; error := None |}, s') /\
     (raises (translate_texts_with_model_body (texts request)
                (target_language request)) s ->
      out = texts request)) /\
  (forall e, place ApiFull.ModelResolve = Some e ->
             translate_texts_with_model_body (texts request)
               (target_language request) s = (Raise e, s)) /\
  (forall e tgt_lang,
      place ApiFull.ModelResolve = None ->
      resolve_tgt_lang (target_language request) = Some tgt_lang ->
      place ApiFull.ModelFilter = Some e ->
      translate_texts_with_model_body (texts request)
        (target_language request) s = (Raise e, s)).
Proof.
  split; [| split; [apply full_body_raises_iff | split; [| split; [| split]]]].
  - intros resp s'. rewrite full_endpoint_eval. unfold raises.
    destruct (place ApiFull.EndpointEntry); [discriminate |].
    destruct (translate_texts_body request s) as [[resp' | e] s1] eqn:Eb.
    + intros [= <- <-]. destruct (full_body_returns _ _ Eb) as [-> _].
      split; [split; [congruence | intros (e & s2 & [=])] | intros e s2 [=]].
    + destruct (place ApiFull.EndpointHandler); [discriminate |].
      intros [= <- <-]. cbn [error translations].
      split; [split; [eauto | discriminate] |].
      now intros e' s2 [= <- <-].
  - unfold returns, raises. rewrite full_endpoint_eval.
    destruct (place ApiFull.EndpointEntry) as [e0|].
    { split; [intros (resp & s' & [=]) | intros [[=] _]]. }
    destruct (translate_texts_body request s) as [[resp | e] s1].
    + split; [| eauto]. intros _. split; [reflexivity |].
      intros (e & s2 & [=]).
    + destruct (place ApiFull.EndpointHandler) as [e'|].
      * split; [intros (resp & s' & [=]) |].
        intros [_ H]. discriminate H. eauto.
      * split; eauto.
  - intros H0 H1 H2 H3 H4. unfold raises.
    rewrite full_endpoint_eval, full_body_eval, full_with_model_eval.
    rewrite H0, H1, H2, H3, H4.
    destruct (translate_texts_with_model_body (texts request)
                (target_language request) s) as [[out | e] s1].
    + eexists _, _. split; [reflexivity |]. intros (e & s2 & [=]).
    + exists (texts request), s1.
      now rewrite fit_length_same by reflexivity.
  - intros e He. unfold ApiFull.translate_texts_with_model_body, bind,
      ApiFull.at_. now rewrite He.
  - intros e tgt_lang H1 R He.
    unfold ApiFull.translate_texts_with_model_body, bind, ApiFull.at_.
    rewrite H1, R. cbn [ret].
    rewrite (resolve_tgt_lang_nonempty _ R). now rewrite He.
Qed.

End EveryPlace.

(** ** The claims on the sample requests *)

Lemma fault_free_no_fault : fault_free no_fault.
Proof. intros site. reflexivity. Defined.

(** The chunk fallback on the request of two chunks: the engine answers the
    first chunk and raises on the second, which holds [" Invest "]
    (index 25) and ["boom"] (index 26). *)
Lemma chunk_fallback_isolated_witness :
  resolve_tgt_lang (target_language demo_request) = Some (py "hin_Deva") /\
  fault_free no_fault /\
  exists resp s',
    run_demo no_fault demo_request = (Ok resp, s') /\
    nth_error (translations resp) 25 = Some (py "Invest") /\
    nth_error (translations resp) 26 = Some (py "boom") /\
    nth_error (translations resp) 0 = Some (py "hin_Deva:Market Data").
Proof.
  assert (R : resolve_tgt_lang (target_language demo_request)
              = Some (py "hin_Deva")) by reflexivity.
  split; [exact R | split; [exact fault_free_no_fault |]].
  destruct (@chunk_fallback_isolated ascii_only ascii_only nat demo_engine
              no_fault demo_request 0 (py "hin_Deva") R fault_free_no_fault)
    as (resp & s' & E & _ & H).
  cbn zeta in H.
  exists resp, s'. split; [exact E |].
  pose proof (H 1 [py "Invest"; py "boom"]
                (Raise (Exception (py "CUDA out of memory")))) as H1.
  pose proof (H 0 (repeat (py "Market Data") 10 ++ repeat (py "Trade") 14)
                (Ok (map (tagged (py "hin_Deva"))
                       (repeat (py "Market Data") 10 ++ repeat (py "Trade") 14))))
    as H0.
  split; [| split].
  - destruct (H1 0) as (idx & Hi & Hr & _);
      [vm_compute; reflexivity | vm_compute; reflexivity | simpl; lia |].
    vm_compute in Hi. injection Hi as <-. exact (Hr _ eq_refl).
  - destruct (H1 1) as (idx & Hi & Hr & _);
      [vm_compute; reflexivity | vm_compute; reflexivity | simpl; lia |].
    vm_compute in Hi. injection Hi as <-. exact (Hr _ eq_refl).
  - destruct (H0 0) as (idx & Hi & _ & Hr);
      [vm_compute; reflexivity | vm_compute; reflexivity | simpl; lia |].
    vm_compute in Hi. injection Hi as <-.
    exact (Hr _ eq_refl eq_refl).
Defined.

(** The request to the unknown language ["xx"] comes back as it was sent. *)
Lemma unresolved_language_passthrough_witness :
  ~ In (target_language demo_request_unknown) valid_target_langs /\
  ~ In (target_language demo_request_unknown) (map fst tgt_lang_map) /\
  exists resp,
    run_demo no_fault demo_request_unknown = (Ok resp, 0) /\
    translations resp = demo_texts /\
    (error resp = None <->
     no_fault InEndpointBefore = None /\ no_fault InEndpointAfter = None).
Proof.
  assert (Hv : ~ In (target_language demo_request_unknown) valid_target_langs)
    by (apply str_in_false; reflexivity).
  assert (Hm : ~ In (target_language demo_request_unknown)
                 (map fst tgt_lang_map))
    by (apply dict_get_None; reflexivity).
  split; [exact Hv | split; [exact Hm |]].
  exact (@unresolved_language_passthrough ascii_only ascii_only nat demo_engine
           no_fault demo_request_unknown 0 Hv Hm).
Defined.

(** On the request of two chunks ["12345"] stays at index 10. *)
Lemma passthrough_preserved_witness :
  nth_error (texts demo_request) 10 = Some (py "12345") /\
  is_translatable ascii_only ascii_only (py "12345") = false /\
  exists resp s',
    run_demo no_fault demo_request = (Ok resp, s') /\
    nth_error (translations resp) 10 = Some (py "12345").
Proof.
  split; [reflexivity | split; [reflexivity |]].
  exact (@passthrough_preserved ascii_only ascii_only nat demo_engine no_fault
           demo_request 0 10 (py "12345") eq_refl eq_refl).
Defined.

(** On the request of two chunks [" Invest "] is sent to the engine as
    ["Invest"], the engine raises, and ["Invest"] comes back. *)
Lemma fallback_is_trimmed_witness :
  resolve_tgt_lang (target_language demo_request) = Some (py "hin_Deva") /\
  fault_free no_fault /\
  nth_error (texts demo_request) 25 = Some (py " Invest ") /\
  is_translatable ascii_only ascii_only (py " Invest ") = true /\
  exists resp s' k p chunk (outcome : Result (list str)),
    run_demo no_fault demo_request = (Ok resp, s') /\
    nth_error (chunks_of
                 (map (fun i => strip ascii_only (nth i (texts demo_request) []))
                    (translatable_indices ascii_only ascii_only
                       (texts demo_request)))) k = Some chunk /\
    nth_error chunk p = Some (py "Invest") /\
    (forall e, outcome = Raise e ->
               nth_error (translations resp) 25 = Some (py "Invest")) /\
    (forall e, outcome = Raise e ->
               nth_error (translations resp) 25 <> Some (py " Invest ")).
Proof.
  assert (R : resolve_tgt_lang (target_language demo_request)
              = Some (py "hin_Deva")) by reflexivity.
  assert (Hidx : nth_error (texts demo_request) 25 = Some (py " Invest "))
    by reflexivity.
  assert (Htr : is_translatable ascii_only ascii_only (py " Invest ") = true)
    by reflexivity.
  split; [exact R | split; [exact fault_free_no_fault |]].
  split; [exact Hidx | split; [exact Htr |]].
  destruct (@fallback_is_trimmed ascii_only ascii_only nat demo_engine no_fault
              demo_request 0 (py "hin_Deva") 25 (py " Invest ")
              R fault_free_no_fault Hidx Htr)
    as (resp & s' & k & p & chunk & outcome & E & Hk & Hc & _ & _ & Hr & _ & Hn).
  exists resp, s', k, p, chunk, outcome.
  split; [exact E |]. split; [exact Hk |]. split; [exact Hc |].
  split; [exact Hr |]. apply Hn. discriminate.
Defined.

(** Two requests that differ in their source language only. *)
Lemma source_language_ignored_witness :
  texts demo_request_hi = texts demo_request_hi_fr /\
  target_language demo_request_hi = target_language demo_request_hi_fr /\
  source_language demo_request_hi <> source_language demo_request_hi_fr /\
  run_demo no_fault demo_request_hi = run_demo no_fault demo_request_hi_fr.
Proof.
  split; [reflexivity | split; [reflexivity | split; [discriminate |]]].
  exact (proj1 (@source_language_ignored ascii_only ascii_only nat demo_engine
                  no_fault demo_request_hi demo_request_hi_fr 0
                  eq_refl eq_refl)).
Defined.

(** An exception raised in the filter of the short request: the body of
    the [try] of [translate_texts_with_model] raises, outside the handling
    of the chunks, and the response is the list of the texts as they were
    sent, without an [error] field; the same request without the exception
    is translated. *)
Lemma error_field_absent_after_filter_exception :
  ApiFull.translate_texts_with_model_body ascii_only ascii_only demo_engine
    raise_in_filter (texts demo_request_hi) (target_language demo_request_hi) 0
  = (Raise unexpected, 0) /\
  run_full raise_in_filter demo_request_hi
  = (Ok {| translations := texts demo_request_hi; error := None |}, 0) /\
  run_full no_raise demo_request_hi
  = (Ok {| translations :=
             [py "hin_Deva:Hello world"; py "123"; py "hin_Deva:Welcome";
              py "  "; []];
           error := None |}, 1).
Proof. repeat split; reflexivity. Qed.

(** An exception at line 286 is not caught by [translate_texts_with_model]
    and gives the field. *)
Example error_field_present_after_entry_print_of_model :
  run_full raise_at_model_entry demo_request_hi
  = (Ok {| translations := texts demo_request_hi;
           error := Some (py "unexpected") |}, 0).
Proof. reflexivity. Qed.

(** An exception before the [try] of the endpoint leaves it. *)
Example no_response_after_entry_print_of_endpoint :
  run_full raise_at_endpoint_entry demo_request_hi = (Raise unexpected, 0).
Proof. reflexivity. Qed.

(** The repair on a batch the engine answers with too few and with too many
    results. *)
Example repaired_short_and_long :
  _translate_batch_on_gpu demo_engine [py "short"; py "Trade"; py "List"]
    (py "eng_Latn") (py "hin_Deva") 0
  = (Ok [py "hin_Deva:short"; py "Trade"; py "List"], 1) /\
  _translate_batch_on_gpu demo_engine [py "long"; py "Trade"]
    (py "eng_Latn") (py "hin_Deva") 0
  = (Ok [py "hin_Deva:long"; py "hin_Deva:Trade"], 1).
Proof. split; reflexivity. Qed.

(** The scenario of a request of three texts: the second one has no letter
    and stays as it is, the others are translated. *)
Example three_texts_end_to_end :
  run_demo no_fault
    (mk_request [py "Hello world"; py "123"; py "Welcome"] "en" "hin_Deva")
  = (Ok {| translations :=
             [py "hin_Deva:Hello world"; py "123"; py "hin_Deva:Welcome"];
           error := None |}, 1).
Proof. reflexivity. Qed.

(** Fifty texts make three chunks, of 24, 24 and 2 texts. *)
Example fifty_texts_three_chunks :
  map (@length str) (chunks_of (repeat (py "Trade") 50)) = [24; 24; 2].
Proof. reflexivity. Qed.

(** * Further properties of the code *)

(** ** Lists *)

Lemma map_nth_seq {A} (l : list A) (d : A) :
  map (fun i => nth i l d) (seq 0 (length l)) = l.
Proof.
  induction l as [|x l IH]; [reflexivity |].
  cbn [length seq map nth]. rewrite <- seq_shift, map_map. cbn [nth].
  now rewrite IH.
Qed.

Lemma filter_nil_iff {A} (f : A -> bool) (l : list A) :
  Forall (fun x => f x = false) l -> filter f l = [].
Proof.
  induction 1 as [|x l Hx _ IH]; simpl; [reflexivity |]. now rewrite Hx.
Qed.

Lemma StronglySorted_seq (start len : nat) :
  StronglySorted lt (seq start len).
Proof.
  revert start; induction len as [|len IH]; intros start; simpl;
    constructor; [apply IH |].
  apply Forall_forall. intros i Hi. apply in_seq in Hi. lia.
Qed.

Lemma StronglySorted_filter {A} (R : A -> A -> Prop) (f : A -> bool)
    (l : list A) :
  StronglySorted R l -> StronglySorted R (filter f l).
Proof.
  induction 1 as [|x l Hl IH Hx]; simpl; [constructor |].
  destruct (f x); [| exact IH]. constructor; [exact IH |].
  rewrite Forall_forall in *. intros y Hy. apply filter_In in Hy. now apply Hx.
Qed.

Lemma filter_seq_nth_length {A} (P : A -> bool) (d : A) :
  forall l pre,
    length (filter (fun i => P (nth i (pre ++ l) d))
              (seq (length pre) (length l)))
    = length (filter P l).
Proof.
  induction l as [|x l IH]; intros pre; [reflexivity |].
  cbn [length seq filter]. rewrite nth_middle.
  specialize (IH (pre ++ [x])).
  rewrite length_app, Nat.add_1_r, <- app_assoc in IH. cbn [app] in IH.
  destruct (P x); cbn [length]; now rewrite IH.
Qed.

(** ** The filter and the language lookup *)

Section Further.

Variable uni_isspace : char -> bool.
Variable uni_isalpha : char -> bool.
Variable EngineState : Type.
Variable engine : list str -> str -> str -> M EngineState (list str).
Variable fault : Site -> option exn.

Local Abbreviation strip := (PyStr.strip uni_isspace).
Local Abbreviation is_translatable :=
  (is_translatable uni_isspace uni_isalpha).
Local Abbreviation translatable_indices :=
  (translatable_indices uni_isspace uni_isalpha).
Local Abbreviation filter_loop := (Api.filter_loop uni_isspace uni_isalpha).
Local Abbreviation answer := (answer uni_isspace uni_isalpha).
Local Abbreviation admissible_call :=
  (admissible_call uni_isspace uni_isalpha).
Local Abbreviation _translate_batch_on_gpu :=
  (Api._translate_batch_on_gpu engine).
Local Abbreviation translate_texts_with_model_body :=
  (Api.translate_texts_with_model_body uni_isspace uni_isalpha engine fault).
Local Abbreviation translate_texts_with_model :=
  (Api.translate_texts_with_model uni_isspace uni_isalpha engine fault).
Local Abbreviation translate_texts :=
  (Api.translate_texts uni_isspace uni_isalpha engine fault).

Lemma lstrip_fixed (text : str) :
  (forall c rest, text = c :: rest -> isspace uni_isspace c = false) ->
  lstrip uni_isspace text = text.
Proof.
  destruct text as [|c rest]; [reflexivity |]. intros H. simpl.
  now rewrite (H c rest eq_refl).
Qed.

Lemma rstrip_fixed (text : str) :
  (forall c rest, text = rest ++ [c] -> isspace uni_isspace c = false) ->
  rstrip uni_isspace text = text.
Proof.
  intros H. unfold rstrip. rewrite lstrip_fixed; [apply rev_involutive |].
  intros c rest E. apply (H c (rev rest)).
  rewrite <- (rev_involutive text), E. reflexivity.
Qed.

Lemma strip_idempotent (text : str) : strip (strip text) = strip text.
Proof.
  destruct (strip_spec uni_isspace text) as (pre & post & _ & _ & _ & Hhd & Hlast).
  unfold PyStr.strip at 1. rewrite lstrip_fixed by exact Hhd.
  now apply rstrip_fixed.
Qed.

Lemma is_translatable_strip (text : str) :
  is_translatable (strip text) = is_translatable text.
Proof. now rewrite !is_translatable_eq, strip_idempotent. Qed.

(** The texts the filter keeps: trimmed, and accepted by its test. *)
Lemma filtered_texts_kept (texts : list str) :
  Forall (fun text => strip text = text /\ translatable uni_isalpha text = true)
    (map (fun i => strip (nth i texts [])) (translatable_indices texts)).
Proof.
  apply Forall_map, Forall_forall. intros i Hi.
  apply translatable_indices_In in Hi as [_ Hi].
  rewrite is_translatable_eq in Hi. split; [apply strip_idempotent | exact Hi].
Qed.

(** X1 (the filter is idempotent). The texts the filter of
    [translate_texts_with_model] keeps are trimmed and pass its test again:
    run on its own output, the loop keeps every text, unchanged, at every
    index. *)
Theorem filter_loop_idempotent (texts : list str) :
  let filtered_texts := fst (filter_loop 0 texts [] []) in
  filter_loop 0 filtered_texts [] []
  = (filtered_texts, seq 0 (length filtered_texts)).
Proof.
  cbn zeta. rewrite (filter_loop_spec uni_isspace uni_isalpha texts). cbn [fst].
  set (F := map (fun i => strip (nth i texts [])) (translatable_indices texts)).
  pose proof (filtered_texts_kept texts) as HF. fold F in HF.
  rewrite (filter_loop_spec uni_isspace uni_isalpha F).
  assert (HI : translatable_indices F = seq 0 (length F)).
  { rewrite translatable_indices_eq. apply forallb_filter_id.
    apply forallb_forall. intros i Hi. apply in_seq in Hi.
    rewrite Forall_forall in HF.
    destruct (HF (nth i F [])) as [Hs Ht]; [apply nth_In; lia |].
    now rewrite is_translatable_eq, Hs. }
  rewrite HI. f_equal.
  rewrite <- (map_nth_seq F []) at 2. apply map_ext_in.
  intros i Hi. apply in_seq in Hi. rewrite Forall_forall in HF.
  apply HF, nth_In. lia.
Qed.

(** X2 (the two lists of the filter). The filter returns two lists of the
    same length; the indices are strictly increasing and below the number
    of texts, and the text at a position of the first list is the trimmed
    form of the input text at the index found at that position of the
    second; every such text has between 1 and 1000 characters. *)
Theorem filter_loop_parallel_lists (texts : list str) :
  let filtered_texts := fst (filter_loop 0 texts [] []) in
  let text_indices := snd (filter_loop 0 texts [] []) in
  length filtered_texts = length text_indices /\
  StronglySorted lt text_indices /\
  Forall (fun i => i < length texts) text_indices /\
  filtered_texts = map (fun i => strip (nth i texts [])) text_indices /\
  Forall (fun text => 1 <= length text <= 1000) filtered_texts.
Proof.
  cbn zeta. rewrite filter_loop_spec. cbn [fst snd].
  split; [apply length_map |].
  split; [apply StronglySorted_filter, StronglySorted_seq |].
  split; [apply translatable_indices_bound |].
  split; [reflexivity |].
  pose proof (filtered_texts_kept texts) as HF.
  rewrite Forall_forall in *. intros text Hin.
  destruct (HF text Hin) as [_ Ht]. unfold translatable in Ht.
  rewrite !andb_true_iff, Nat.ltb_lt, Nat.leb_le in Ht. lia.
Qed.

Lemma resolve_tgt_lang_valid (target_language tgt_lang : str) :
  resolve_tgt_lang target_language = Some tgt_lang ->
  In tgt_lang valid_target_langs.
Proof.
  intros R. unfold resolve_tgt_lang in R.
  destruct (str_in target_language valid_target_langs) eqn:E.
  - injection R as <-. now apply str_in_In.
  - apply dict_get_Some_In in R.
    assert (Hm : forallb (fun v => str_in v valid_target_langs)
                   (map snd tgt_lang_map) = true) by reflexivity.
    rewrite forallb_forall in Hm. apply str_in_In. now apply Hm.
Qed.

(** X3 (the language lookup gives canonical tags). Whatever identifier
    resolves, resolves to a tag of [valid_target_langs], and that tag
    resolves to itself: every value of the table of short codes is a
    canonical tag. *)
Theorem resolve_tgt_lang_canonical (target_language tgt_lang : str) :
  resolve_tgt_lang target_language = Some tgt_lang ->
  In tgt_lang valid_target_langs /\
  resolve_tgt_lang tgt_lang = Some tgt_lang.
Proof.
  intros R. pose proof (resolve_tgt_lang_valid _ R) as Hin.
  split; [exact Hin |].
  unfold resolve_tgt_lang. apply str_in_In in Hin. now rewrite Hin.
Qed.

(** ** Calls of the engine *)

Lemma translatable_indices_nil (texts : list str) :
  Forall (fun text => is_translatable text = false) texts ->
  translatable_indices texts = [].
Proof.
  intros H. rewrite translatable_indices_eq. apply filter_nil_iff.
  apply Forall_forall. intros i Hi. apply in_seq in Hi.
  rewrite Forall_forall in H. apply H, nth_In. lia.
Qed.

(** X4 (nothing to translate, no call). When the filter keeps no text of
    the request, the endpoint returns the texts as they were sent and
    leaves the engine in the state it was in: the engine is not called,
    whatever the target language and whatever exception is raised on the
    way. *)
Theorem no_translatable_text_no_call (request : TranslationRequest)
    (s : EngineState) :
  Forall (fun text => is_translatable text = false) (texts request) ->
  exists resp,
    translate_texts request s = (Ok resp, s) /\
    translations resp = texts request.
Proof.
  intros Hall.
  assert (W : translate_texts_with_model (texts request)
                (target_language request) s = (Ok (texts request), s)).
  { rewrite with_model_eval, with_model_body_eval.
    destruct (fault InResolve); [reflexivity |].
    destruct (resolve_tgt_lang (target_language request)); [| reflexivity].
    destruct (fault InFilter); [reflexivity |].
    now rewrite (translatable_indices_nil Hall). }
  rewrite endpoint_eval.
  destruct (endpoint_body_eval uni_isspace uni_isalpha engine fault request s)
    as (out & s' & E & _ & ->).
  rewrite W in E. injection E as <- <-.
  destruct (fault InEndpointBefore); [eauto |].
  destruct (fault InEndpointAfter); eauto.
Qed.

(** X5 (the code of the pipeline raises nothing of its own). The body of
    [translate_texts_with_model] returns, or raises an exception that was
    raised at one of its places by something else than its own list
    operations: the loop that completes a short result and the writes of
    the reassembly stay in range, so no [IndexError] comes out of them. *)
Theorem pipeline_raises_nothing_of_its_own (texts : list str)
    (target_language : str) (s : EngineState) :
  (exists out s',
      translate_texts_with_model_body texts target_language s = (Ok out, s')) \/
  (exists site e s',
      fault site = Some e /\
      translate_texts_with_model_body texts target_language s = (Raise e, s')).
Proof.
  rewrite with_model_body_eval.
  destruct (fault InResolve) eqn:E1; [right; eauto |].
  destruct (resolve_tgt_lang target_language); [| left; eauto].
  destruct (fault InFilter) eqn:E2; [right; eauto |].
  cbn zeta. destruct (length _ =? 0); [left; eauto |].
  destruct (fault InAssemble) eqn:E3; [right; eauto | left; eauto].
Qed.

(** X8 (sizes of the chunks). Every chunk but the last one holds exactly
    [MODEL_BATCH_SIZE] texts, and the last one holds the texts that are
    left. *)
Theorem chunk_sizes (filtered_texts : list str) (k : nat) (chunk : list str) :
  nth_error (chunks_of filtered_texts) k = Some chunk ->
  (S k < length (chunks_of filtered_texts) ->
   length chunk = MODEL_BATCH_SIZE) /\
  (S k = length (chunks_of filtered_texts) ->
   length chunk = length filtered_texts - k * MODEL_BATCH_SIZE /\
   1 <= length chunk <= MODEL_BATCH_SIZE).
Proof.
  intros Hk. apply chunks_of_nth in Hk as [Hlt ->].
  rewrite chunks_of_length, slice_length.
  pose proof (ceil_div_spec (length filtered_texts) 23) as [H1 H2].
  unfold MODEL_BATCH_SIZE in *. split; intros H; lia.
Qed.

Lemma chunks_admissible (texts : list str) (tgt_lang : str) :
  In tgt_lang valid_target_langs ->
  Forall (fun c => admissible_call c (py "eng_Latn") tgt_lang)
    (chunks_of (map (fun i => strip (nth i texts []))
                  (translatable_indices texts))).
Proof.
  intros Hin. set (F := map _ _).
  pose proof (chunks_of_bounds F) as Hb.
  pose proof (filtered_texts_kept texts) as HF. fold F in HF.
  rewrite Forall_forall in *. intros c Hc. specialize (Hb c Hc).
  split; [intros ->; simpl in Hb; lia |].
  split; [lia |]. split; [| split; [reflexivity | exact Hin]].
  apply Forall_forall. intros t Ht. apply HF.
  rewrite <- (chunks_of_concat F). apply in_concat. eauto.
Qed.

Lemma filtered_count (texts : list str) :
  length (translatable_indices texts) = length (filter is_translatable texts).
Proof.
  rewrite translatable_indices_eq.
  exact (filter_seq_nth_length is_translatable [] texts []).
Qed.

Lemma tallied_trace (chunks : list (list str)) (src_lang tgt_lang : str) :
  forall s t,
    engine_trace (tallied engine) chunks src_lang tgt_lang (s, t)
    = (fst (engine_trace engine chunks src_lang tgt_lang s),
       (snd (engine_trace engine chunks src_lang tgt_lang s),
        {| calls := calls t + length chunks;
           submitted := submitted t + length (concat chunks) |})).
Proof.
  induction chunks as [|c chunks IH]; intros s t.
  - cbn. rewrite !Nat.add_0_r. now destruct t.
  - cbn [engine_trace]. unfold tallied at 1. cbn [fst snd].
    destruct (engine c src_lang tgt_lang s) as [o s'].
    rewrite IH.
    destruct (engine_trace engine chunks src_lang tgt_lang s') as [os s''].
    cbn [fst snd calls submitted concat length]. rewrite length_app.
    do 3 f_equal; lia.
Qed.

(** X9 (number of calls of the engine). In a run with a known target
    language and no unexpected exception, the engine is called once per
    chunk and never else: with [n] texts kept by the filter (repeated texts
    counted as often as they occur), it is called [ceil (n / 24)] times and
    is sent [n] texts in all; keeping the tally does not change the
    response. *)
Theorem engine_call_tally (request : TranslationRequest) (s : EngineState)
    (tgt_lang : str) :
  resolve_tgt_lang (target_language request) = Some tgt_lang ->
  fault_free fault ->
  let n := length (filter is_translatable (texts request)) in
  exists resp s',
    translate_texts request s = (Ok resp, s') /\
    Api.translate_texts uni_isspace uni_isalpha (tallied engine) fault request
      (s, {| calls := 0; submitted := 0 |})
    = (Ok resp,
       (s', {| calls := ceil_div n MODEL_BATCH_SIZE; submitted := n |})).
Proof.
  intros R Hff. cbn zeta.
  eexists _, _. split; [apply (normal_run_eval _ _ _ request s R Hff) |].
  rewrite (normal_run_eval uni_isspace uni_isalpha (tallied engine) request
             (s, {| calls := 0; submitted := 0 |}) R Hff).
  cbn zeta. rewrite tallied_trace. cbn [fst snd calls submitted].
  rewrite chunks_of_length, chunks_of_concat, length_map, filtered_count.
  reflexivity.
Qed.

(** ** Engines of a known behaviour *)

Lemma uniform_outputs (P : list str -> Prop) (f : str -> str)
    (src_lang tgt_lang : str) :
  (forall c s, P c ->
               chunk_output c (fst (engine c src_lang tgt_lang s)) = map f c) ->
  forall chunks s,
    Forall P chunks ->
    concat (chunk_outputs chunks
              (fst (engine_trace engine chunks src_lang tgt_lang s)))
    = map f (concat chunks).
Proof.
  intros Hf. induction chunks as [|c chunks IH]; intros s Hall; [reflexivity |].
  inversion Hall as [|? ? Hc Hrest]; subst.
  cbn [engine_trace]. specialize (Hf c s Hc).
  destruct (engine c src_lang tgt_lang s) as [o s'].
  specialize (IH s' Hrest).
  destruct (engine_trace engine chunks src_lang tgt_lang s') as [os s''].
  cbn [fst snd] in *. unfold chunk_outputs in *.
  cbn [combine map concat fst snd]. now rewrite map_app, Hf, IH.
Qed.

Lemma scatter_answer (f : str -> str) (texts : list str) :
  scatter_pure texts
    (combine (translatable_indices texts)
       (map f (map (fun i => strip (nth i texts []))
                 (translatable_indices texts))))
  = map (answer f) texts.
Proof.
  set (T := map f _).
  assert (HT : length T = length (translatable_indices texts))
    by (unfold T; now rewrite !length_map).
  apply nth_error_ext. intros n.
  destruct (nth_error texts n) as [text|] eqn:En.
  - assert (Hn : nth n texts [] = text) by now apply nth_error_nth.
    rewrite nth_error_map, En. cbn [option_map].
    change (answer f text)
      with (if is_translatable text then f (strip text) else text).
    destruct (is_translatable text) eqn:Ht.
    + assert (Hin : In n (translatable_indices texts)).
      { apply translatable_indices_In. rewrite Hn. split; [| exact Ht].
        apply nth_error_Some. congruence. }
      apply In_nth_error in Hin as [j Hj].
      rewrite (scatter_combine_written uni_isspace uni_isalpha engine texts T j
                 HT Hj).
      unfold T. rewrite !nth_error_map, Hj. cbn [option_map]. now rewrite Hn.
    + rewrite (scatter_combine_untouched uni_isspace uni_isalpha engine);
        [exact En |].
      rewrite translatable_indices_In, Hn. intros [_ H]. congruence.
  - rewrite nth_error_map, En. cbn [option_map].
    apply nth_error_None. rewrite scatter_pure_length.
    now apply nth_error_None.
Qed.

Lemma uniform_run (f : str -> str) (request : TranslationRequest)
    (s : EngineState) (tgt_lang : str) :
  resolve_tgt_lang (target_language request) = Some tgt_lang ->
  fault_free fault ->
  (forall batch s0,
      admissible_call batch (py "eng_Latn") tgt_lang ->
      chunk_output batch (fst (engine batch (py "eng_Latn") tgt_lang s0))
      = map f batch) ->
  exists s',
    translate_texts request s
    = (Ok {| translations := map (answer f) (texts request); error := None |},
       s').
Proof.
  intros R Hff Hf.
  rewrite (normal_run_eval _ _ _ request s R Hff). cbn zeta.
  rewrite (@uniform_outputs _ f (py "eng_Latn") tgt_lang Hf).
  - rewrite chunks_of_concat, scatter_answer. eauto.
  - apply chunks_admissible. now apply (resolve_tgt_lang_valid _ R).
Qed.

(** X10 (an engine that answers text by text). When the engine, on the
    calls the pipeline makes, returns [f] of every text of the batch, the
    response is the list of the request's texts with every text the filter
    keeps replaced by [f] of its trimmed form: the cut into chunks does not
    show in the response. *)
Theorem pointwise_engine_batching_transparent (f : str -> str)
    (request : TranslationRequest) (s : EngineState) (tgt_lang : str) :
  resolve_tgt_lang (target_language request) = Some tgt_lang ->
  fault_free fault ->
  (forall batch s0,
      admissible_call batch (py "eng_Latn") tgt_lang ->
      fst (engine batch (py "eng_Latn") tgt_lang s0) = Ok (map f batch)) ->
  exists s',
    translate_texts request s
    = (Ok {| translations := map (answer f) (texts request); error := None |},
       s').
Proof.
  intros R Hff Hf. apply (@uniform_run f request s tgt_lang R Hff).
  intros batch s0 Ha. rewrite (Hf batch s0 Ha). cbn [chunk_output].
  apply repair_same_length, length_map.
Qed.

Lemma answer_id_idempotent (text : str) :
  answer (fun t => t) (answer (fun t => t) text) = answer (fun t => t) text.
Proof.
  change (answer (fun t => t) text)
    with (if is_translatable text then strip text else text).
  destruct (is_translatable text) eqn:Ht.
  - change (answer (fun t => t) (strip text))
      with (if is_translatable (strip text) then strip (strip text)
            else strip text).
    now rewrite is_translatable_strip, Ht, strip_idempotent.
  - change (answer (fun t => t) text)
      with (if is_translatable text then strip text else text).
    now rewrite Ht.
Qed.

(** X11 (an engine that is down). When the engine raises on every call the
    pipeline makes, the response is the list of the request's texts with
    every text the filter keeps trimmed, and no [error] field; sending
    these translations again would give them back unchanged. *)
Theorem engine_down_trims (request : TranslationRequest) (s : EngineState)
    (tgt_lang : str) :
  resolve_tgt_lang (target_language request) = Some tgt_lang ->
  fault_free fault ->
  (forall batch s0,
      admissible_call batch (py "eng_Latn") tgt_lang ->
      exists e, fst (engine batch (py "eng_Latn") tgt_lang s0) = Raise e) ->
  exists resp s',
    translate_texts request s = (Ok resp, s') /\
    error resp = None /\
    translations resp = map (answer (fun t => t)) (texts request) /\
    map (answer (fun t => t)) (translations resp) = translations resp.
Proof.
  intros R Hff Hdown.
  destruct (@uniform_run (fun t => t) request s tgt_lang R Hff) as [s' E].
  { intros batch s0 Ha. destruct (Hdown batch s0 Ha) as [e ->].
    cbn [chunk_output]. symmetry. apply map_id. }
  eexists _, s'. split; [exact E |]. cbn [error translations].
  split; [reflexivity | split; [reflexivity |]].
  rewrite map_map. apply map_ext. intros t. apply answer_id_idempotent.
Qed.

Lemma trace_agree (engine2 : list str -> str -> str -> M EngineState (list str))
    (src_lang tgt_lang : str) :
  (forall batch s,
      admissible_call batch src_lang tgt_lang ->
      engine batch src_lang tgt_lang s = engine2 batch src_lang tgt_lang s) ->
  forall chunks s,
    Forall (fun c => admissible_call c src_lang tgt_lang) chunks ->
    engine_trace engine chunks src_lang tgt_lang s
    = engine_trace engine2 chunks src_lang tgt_lang s.
Proof.
  intros Hag. induction chunks as [|c chunks IH]; intros s Hall; [reflexivity |].
  inversion Hall as [|? ? Hc Hrest]; subst.
  cbn [engine_trace]. rewrite <- (Hag c s Hc).
  destruct (engine c src_lang tgt_lang s) as [o s']. now rewrite IH.
Qed.

(** X12 (what the engine is asked). The engine is only called on batches
    of one to 24 texts, each trimmed and accepted by the filter, with the
    source tag ["eng_Latn"] and a canonical target tag: two engines that
    agree on these calls give the same response and end in the same state,
    for every request and whatever exception is raised on the way. *)
Theorem engine_only_asked_admissible_calls
    (engine2 : list str -> str -> str -> M EngineState (list str))
    (request : TranslationRequest) (s : EngineState) :
  (forall batch src_lang tgt_lang s0,
      admissible_call batch src_lang tgt_lang ->
      engine batch src_lang tgt_lang s0 = engine2 batch src_lang tgt_lang s0) ->
  translate_texts request s
  = Api.translate_texts uni_isspace uni_isalpha engine2 fault request s.
Proof.
  intros Hag.
  assert (W : translate_texts_with_model (texts request)
                (target_language request) s
              = Api.translate_texts_with_model uni_isspace uni_isalpha engine2
                  fault (texts request) (target_language request) s).
  { rewrite !with_model_eval, !with_model_body_eval.
    destruct (fault InResolve); [reflexivity |].
    destruct (resolve_tgt_lang (target_language request)) as [tgt|] eqn:R;
      [| reflexivity].
    destruct (fault InFilter); [reflexivity |].
    cbn zeta. rewrite (@trace_agree engine2 (py "eng_Latn") tgt).
    - reflexivity.
    - intros batch s0. apply Hag.
    - apply chunks_admissible. now apply (resolve_tgt_lang_valid _ R). }
  rewrite !endpoint_eval.
  destruct (endpoint_body_eval uni_isspace uni_isalpha engine fault request s)
    as (out & s' & E & _ & ->).
  destruct (endpoint_body_eval uni_isspace uni_isalpha engine2 fault request s)
    as (out' & s'' & E' & _ & ->).
  rewrite <- W, E in E'. now injection E' as <- <-.
Qed.

(** ** What a translatable text comes back as *)

Lemma in_firstn_in {A} (n : nat) (l : list A) (x : A) :
  In x (firstn n l) -> In x l.
Proof.
  intros H. rewrite <- (firstn_skipn n l). apply in_or_app. now left.
Qed.

Lemma in_skipn_in {A} (n : nat) (l : list A) (x : A) :
  In x (skipn n l) -> In x l.
Proof.
  intros H. rewrite <- (firstn_skipn n l). apply in_or_app. now right.
Qed.

Lemma repair_In {A} (results batch_texts : list A) (x : A) :
  In x (repair results batch_texts) -> In x results \/ In x batch_texts.
Proof.
  unfold repair. intros H. apply in_firstn_in, in_app_or in H.
  destruct H as [H | H]; [now left | right]. eapply in_skipn_in, H.
Qed.

Lemma trace_outcomes_from_engine (chunks : list (list str))
    (src_lang tgt_lang : str) :
  forall s,
    Forall (fun o => exists c s0, o = fst (engine c src_lang tgt_lang s0))
      (fst (engine_trace engine chunks src_lang tgt_lang s)).
Proof.
  induction chunks as [|c chunks IH]; intros s; [constructor |].
  cbn [engine_trace].
  destruct (engine c src_lang tgt_lang s) as [o s'] eqn:E.
  specialize (IH s').
  destruct (engine_trace engine chunks src_lang tgt_lang s') as [os s''].
  cbn [fst] in *. constructor; [| exact IH].
  exists c, s. now rewrite E.
Qed.

Lemma chunk_outputs_In (chunks : list (list str))
    (outcomes : list (Result (list str))) (t : str) :
  In t (concat (chunk_outputs chunks outcomes)) ->
  exists c o, In c chunks /\ In o outcomes /\ In t (chunk_output c o).
Proof.
  intros H. apply in_concat in H as (out & Hout & Ht).
  unfold chunk_outputs in Hout. apply in_map_iff in Hout as ([c o] & <- & Hco).
  exists c, o. split; [eapply in_combine_l, Hco |].
  split; [eapply in_combine_r, Hco | exact Ht].
Qed.

(** X13 (no translatable text comes back empty). If the engine never
    returns an empty string among its results, then in every run, whatever
    the target language, the failures of the engine and the exceptions
    raised on the way, the response holds a non-empty string at the index
    of every text the filter keeps. *)
Theorem translatable_text_never_empty (request : TranslationRequest)
    (s : EngineState) (idx : nat) (text : str) :
  (forall batch src_lang tgt_lang s0 results,
      fst (engine batch src_lang tgt_lang s0) = Ok results ->
      Forall (fun t => t <> []) results) ->
  nth_error (texts request) idx = Some text ->
  is_translatable text = true ->
  exists resp s' t,
    translate_texts request s = (Ok resp, s') /\
    nth_error (translations resp) idx = Some t /\
    t <> [].
Proof.
  intros Hne Hidx Htr.
  assert (Htext : text <> []) by (intros ->; discriminate Htr).
  assert (Hnth : nth idx (texts request) [] = text) by now apply nth_error_nth.
  assert (W : exists out s',
             translate_texts_with_model (texts request)
               (target_language request) s = (Ok out, s') /\
             exists t, nth_error out idx = Some t /\ t <> []).
  { rewrite with_model_eval, with_model_body_eval.
    destruct (fault InResolve); [eauto 6 |].
    destruct (resolve_tgt_lang (target_language request)) as [tgt|];
      [| eauto 6].
    destruct (fault InFilter); [eauto 6 |].
    cbn zeta. destruct (length _ =? 0); [eauto 6 |].
    destruct (fault InAssemble); [eauto 6 |].
    eexists _, _. split; [reflexivity |].
    set (F := map (fun i => strip (nth i (texts request) []))
                (translatable_indices (texts request))).
    set (os := fst (engine_trace engine (chunks_of F) (py "eng_Latn") tgt s)).
    set (T := concat (chunk_outputs (chunks_of F) os)).
    assert (HT : length T = length (translatable_indices (texts request))).
    { unfold T, os. rewrite chunk_outputs_concat_length
        by apply engine_trace_length.
      rewrite chunks_of_concat. apply length_map. }
    assert (Hin : In idx (translatable_indices (texts request))).
    { apply translatable_indices_In. rewrite Hnth. split; [| exact Htr].
      apply nth_error_Some. congruence. }
    apply In_nth_error in Hin as [j Hj].
    rewrite (scatter_combine_written uni_isspace uni_isalpha engine
               (texts request) T j HT Hj).
    destruct (nth_error T j) as [t|] eqn:Et.
    2:{ apply nth_error_None in Et.
        assert (j < length (translatable_indices (texts request)))
          by (apply nth_error_Some; congruence). lia. }
    exists t. split; [reflexivity |].
    apply nth_error_In, chunk_outputs_In in Et as (c & o & Hc & Ho & Ht).
    assert (Hc' : forall x, In x c -> x <> []).
    { intros x Hx.
      assert (HxF : In x F).
      { rewrite <- (chunks_of_concat F). apply in_concat. eauto. }
      pose proof (filtered_texts_kept (texts request)) as HF.
      rewrite Forall_forall in HF. destruct (HF x HxF) as [_ Hk].
      intros ->. discriminate Hk. }
    destruct o as [results | e]; cbn [chunk_output] in Ht; [| now apply Hc'].
    apply repair_In in Ht as [Ht | Ht]; [| now apply Hc'].
    pose proof (trace_outcomes_from_engine (chunks_of F) (py "eng_Latn") tgt s)
      as Htr'.
    rewrite Forall_forall in Htr'. destruct (Htr' _ Ho) as (c0 & s0 & E0).
    symmetry in E0. apply Hne in E0. rewrite Forall_forall in E0.
    now apply E0. }
  destruct W as (out & s' & W & t & Ht & Hnet).
  rewrite endpoint_eval.
  destruct (endpoint_body_eval uni_isspace uni_isalpha engine fault request s)
    as (out' & s'' & E & _ & ->).
  rewrite W in E. injection E as <- <-.
  destruct (fault InEndpointBefore); [eauto 6 |].
  destruct (fault InEndpointAfter); eauto 6.
Qed.

End Further.

(** ** The alias endpoint and [_translate_batch_parallel] *)

Section FurtherPlaces.

Variable uni_isspace : char -> bool.
Variable uni_isalpha : char -> bool.
Variable EngineState : Type.
Variable engine : list str -> str -> str -> M EngineState (list str).
Variable place : ApiFull.Place -> option exn.

Local Abbreviation _translate_batch_on_gpu :=
  (ApiFull._translate_batch_on_gpu engine place).
Local Abbreviation _translate_batch_parallel :=
  (ApiFull._translate_batch_parallel engine place).
Local Abbreviation translate_texts :=
  (ApiFull.translate_texts uni_isspace uni_isalpha engine place).
Local Abbreviation api_translate_texts :=
  (ApiFull.api_translate_texts uni_isspace uni_isalpha engine place).

(** Every answer of the endpoint is as long as the request. *)
Lemma full_endpoint_length (request : TranslationRequest) (s : EngineState)
    (resp : TranslationResponse) (s' : EngineState) :
  translate_texts request s = (Ok resp, s') ->
  length (translations resp) = length (texts request).
Proof.
  rewrite full_endpoint_eval.
  destruct (place ApiFull.EndpointEntry); [discriminate |].
  destruct (ApiFull.translate_texts_body _ _ _ _ request s)
    as [[resp' | e] s1] eqn:Eb.
  - intros [= <- _]. now apply full_body_returns in Eb.
  - destruct (place ApiFull.EndpointHandler); [discriminate |].
    now intros [= <- _].
Qed.

(** X6 (the alias endpoint). [api_translate_texts] answers unless one of
    its own two [print] regions raises (lines 435-436 and 442), and every
    answer has as many translations as the request has texts. Where
    [translate_texts] raises, which it does when a statement before its
    [try] raises, the alias answers with the request's texts and the
    message of the exception in the [error] field. *)
Theorem api_translate_texts_answers (request : TranslationRequest)
    (s : EngineState) :
  ((exists resp s',
       api_translate_texts request s = (Ok resp, s') /\
       length (translations resp) = length (texts request)) \/
   (exists e s',
       api_translate_texts request s = (Raise e, s') /\
       (place ApiFull.AliasEntry = Some e \/
        place ApiFull.AliasHandler = Some e))) /\
  (forall e,
      place ApiFull.EndpointEntry = Some e ->
      place ApiFull.AliasEntry = None ->
      place ApiFull.AliasHandler = None ->
      translate_texts request s = (Raise e, s) /\
      api_translate_texts request s
      = (Ok {| translations := texts request; error := Some (exn_str e) |},
         s)).
Proof.
  unfold ApiFull.api_translate_texts, bind, try_except, ApiFull.at_.
  split.
  - destruct (place ApiFull.AliasEntry) as [e0|] eqn:E0.
    { right. exists e0, s. split; [reflexivity | now left]. }
    cbn [ret].
    destruct (translate_texts request s) as [[resp | e] s1] eqn:Et.
    + left. exists resp, s1. split; [reflexivity |].
      now apply full_endpoint_length in Et.
    + destruct (place ApiFull.AliasHandler) as [e1|] eqn:E1.
      { right. exists e1, s1. split; [reflexivity | now right]. }
      left. eexists _, _. split; reflexivity.
  - intros e He H0 H1.
    assert (Et : translate_texts request s = (Raise e, s))
      by (rewrite full_endpoint_eval; now rewrite He).
    split; [exact Et |]. rewrite H0. cbn [ret]. now rewrite Et, H1.
Qed.

(** X7 ([_translate_batch_parallel]). [_translate_batch_parallel] returns
    a list as long as the batch unless the [print] of its own handler
    raises (line 281). Its handler is used: [_translate_batch_on_gpu] can
    raise, and does when one of its first prints (lines 148-151) raises,
    since its handlers then ask [platform] before line 161 has bound the
    name; [_translate_batch_parallel] then returns the batch as it is. *)
Theorem translate_batch_parallel_answers (batch_texts : list str)
    (src_lang tgt_lang : str) (s : EngineState) :
  ((exists out s',
       _translate_batch_parallel batch_texts src_lang tgt_lang s
       = (Ok out, s') /\
       length out = length batch_texts) \/
   (exists e s',
       _translate_batch_parallel batch_texts src_lang tgt_lang s
       = (Raise e, s') /\
       place ApiFull.ParallelHandler = Some e)) /\
  (forall e,
      place ApiFull.GpuEntry = Some e ->
      place ApiFull.GpuHandler = None ->
      place ApiFull.ParallelTry = None ->
      place ApiFull.ParallelHandler = None ->
      _translate_batch_on_gpu batch_texts src_lang tgt_lang s
      = (Raise ApiFull.unbound_platform, s) /\
      _translate_batch_parallel batch_texts src_lang tgt_lang s
      = (Ok batch_texts, s)).
Proof.
  unfold ApiFull._translate_batch_parallel, bind, try_except, ApiFull.at_.
  split.
  - destruct (place ApiFull.ParallelTry) as [e0|]; cbn [raise ret].
    { destruct (place ApiFull.ParallelHandler) as [e1|] eqn:E1;
        [right; exists e1, s | left; exists batch_texts, s]; now split. }
    destruct (_translate_batch_on_gpu batch_texts src_lang tgt_lang s)
      as [[out | e] s1] eqn:Eg.
    + left. exists out, s1. split; [reflexivity |].
      now apply full_gpu_length in Eg.
    + destruct (place ApiFull.ParallelHandler) as [e1|] eqn:E1;
        [right; exists e1, s1 | left; exists batch_texts, s1]; now split.
  - intros e He Hh H0 H1.
    assert (Eg : _translate_batch_on_gpu batch_texts src_lang tgt_lang s
                 = (Raise ApiFull.unbound_platform, s))
      by (rewrite full_gpu_eval; cbn zeta; now rewrite He, Hh).
    split; [exact Eg |]. rewrite H0. cbn [ret]. now rewrite Eg, H1.
Qed.

End FurtherPlaces.

(** ** The diagnostic endpoints *)

Section FurtherDiagnostics.

Variable uni_isspace : char -> bool.
Variable uni_isalpha : char -> bool.
Variable uni_isdigit : char -> bool.
Variable EngineState : Type.
Variable engine : list str -> str -> str -> M EngineState (list str).
Variable place : ApiFull.Place -> option exn.

Local Abbreviation strip := (PyStr.strip uni_isspace).
Local Abbreviation filter_loop := (Api.filter_loop uni_isspace uni_isalpha).
Local Abbreviation debug_keep :=
  (Diagnostics.debug_keep uni_isalpha uni_isdigit).
Local Abbreviation debug_filter_loop :=
  (Diagnostics.debug_filter_loop uni_isspace uni_isalpha uni_isdigit).

Lemma scatter_pure_all (l T : list str) :
  length T = length l ->
  scatter_pure l (combine (seq 0 (length l)) T) = T.
Proof.
  intros HT. apply nth_error_ext. intros n.
  destruct (nth_error T n) as [t|] eqn:Et.
  - assert (Hn : n < length l).
    { rewrite <- HT. apply nth_error_Some. congruence. }
    apply (scatter_pure_written engine); [| | exact Hn].
    + rewrite combine_map_fst by now rewrite length_seq. apply seq_NoDup.
    + apply combine_nth_error_In with (j := n); [| exact Et].
      rewrite nth_error_seq. apply Nat.ltb_lt in Hn. now rewrite Hn.
  - apply nth_error_None. rewrite scatter_pure_length.
    apply nth_error_None in Et. lia.
Qed.

Lemma debug_filter_loop_closed_form :
  forall rest pre filtered_texts text_indices,
    let keep := fun i => debug_keep (strip (nth i (pre ++ rest) [])) in
    let kept := filter keep (seq (length pre) (length rest)) in
    debug_filter_loop (length pre) rest filtered_texts text_indices
    = (filtered_texts ++ map (fun i => strip (nth i (pre ++ rest) [])) kept,
       text_indices ++ kept).
Proof.
  induction rest as [|text rest IH]; intros pre f idx; cbn zeta.
  - simpl. now rewrite !app_nil_r.
  - cbn [Diagnostics.debug_filter_loop length seq filter].
    rewrite nth_middle.
    specialize (IH (pre ++ [text])).
    rewrite length_app, Nat.add_1_r, <- app_assoc in IH. cbn [app] in IH.
    cbn zeta in IH. rewrite !IH.
    destruct (debug_keep (strip text)) eqn:E.
    + cbn [map]. rewrite nth_middle, <- !app_assoc. reflexivity.
    + reflexivity.
Qed.

Lemma debug_filter_loop_spec (texts : list str) :
  let kept :=
    filter (fun i => debug_keep (strip (nth i texts [])))
      (seq 0 (length texts)) in
  debug_filter_loop 0 texts [] []
  = (map (fun i => strip (nth i texts [])) kept, kept).
Proof. exact (debug_filter_loop_closed_form texts [] [] []). Qed.

Lemma debug_filter_loop_In (texts : list str) (i : nat) :
  In i (snd (debug_filter_loop 0 texts [] []))
  <-> i < length texts /\ debug_keep (strip (nth i texts [])) = true.
Proof.
  rewrite debug_filter_loop_spec. cbn [snd].
  rewrite filter_In, in_seq.
  split; intros [H1 H2]; (split; [lia | assumption]).
Qed.

Lemma filter_loop_In (texts : list str) (i : nat) :
  In i (snd (filter_loop 0 texts [] []))
  <-> i < length texts /\
      translatable uni_isalpha (strip (nth i texts [])) = true.
Proof.
  rewrite filter_loop_spec. cbn [snd]. rewrite translatable_indices_In.
  now rewrite is_translatable_eq.
Qed.

Lemma isalpha_not_isdigit (text : str) :
  (forall c, uni_isalpha c = true -> uni_isdigit c = false) ->
  any_isalpha uni_isalpha text = true ->
  isdigit uni_isdigit text = false.
Proof.
  intros Hdis Ha. unfold any_isalpha in Ha. apply existsb_exists in Ha.
  destruct Ha as (c & Hin & Hc).
  unfold isdigit. apply andb_false_iff. right.
  destruct (forallb (isdigit_char uni_isdigit) text) eqn:E; [| reflexivity].
  rewrite forallb_forall in E. specialize (E c Hin).
  unfold isalpha in Hc. unfold isdigit_char in E.
  destruct (c <? 128)%N eqn:E128.
  - unfold ascii_isalpha in Hc. unfold ascii_isdigit in E.
    rewrite !andb_true_iff, !N.leb_le in E.
    rewrite orb_true_iff, !andb_true_iff, !N.leb_le in Hc. lia.
  - rewrite (Hdis c Hc) in E. discriminate.
Qed.

(** X14 (the filter of [debug_filter] against the filter of the pipeline).
    The diagnostic loop keeps an index only if the loop of
    [translate_texts_with_model] keeps it and the trimmed text has at most
    200 characters. When no letter of the character database is a digit,
    the converse holds too: the test [not text.isdigit()] excludes nothing
    that the test for a letter lets through, and the two filters differ
    by the cap on the length only. *)
Theorem debug_filter_against_pipeline_filter :
  (forall texts i,
      In i (snd (debug_filter_loop 0 texts [] [])) ->
      In i (snd (filter_loop 0 texts [] [])) /\
      length (strip (nth i texts [])) <= 200) /\
  ((forall c, uni_isalpha c = true -> uni_isdigit c = false) ->
   forall texts i,
     In i (snd (filter_loop 0 texts [] [])) ->
     length (strip (nth i texts [])) <= 200 ->
     In i (snd (debug_filter_loop 0 texts [] []))).
Proof.
  split.
  - intros texts i. rewrite debug_filter_loop_In, filter_loop_In.
    unfold Diagnostics.debug_keep, translatable.
    rewrite !andb_true_iff, !Nat.leb_le, Nat.ltb_lt. intros [Hi Hk].
    repeat split; try tauto; lia.
  - intros Hdis texts i. rewrite debug_filter_loop_In, filter_loop_In.
    unfold Diagnostics.debug_keep, translatable.
    rewrite !andb_true_iff, !Nat.leb_le, Nat.ltb_lt.
    intros [Hi [[Hl Ha] Hm]] H200.
    rewrite (isalpha_not_isdigit _ Hdis Ha).
    repeat split; try tauto; lia.
Qed.

Lemma test_texts_translatable :
  translatable_indices uni_isspace uni_isalpha Diagnostics.test_texts
  = seq 0 (length Diagnostics.test_texts).
Proof. reflexivity. Qed.

Lemma test_texts_trimmed :
  map (fun i => strip (nth i Diagnostics.test_texts []))
    (seq 0 (length Diagnostics.test_texts))
  = Diagnostics.test_texts.
Proof. reflexivity. Qed.

Lemma test_texts_one_chunk :
  chunks_of Diagnostics.test_texts = [Diagnostics.test_texts].
Proof. reflexivity. Qed.

(** X15 ([test_model]). In a run in which no place raises, [test_model]
    reports success with its sixteen sample texts as input: it calls the
    engine once, on the sixteen texts as one batch from ["eng_Latn"] to
    ["hin_Deva"], and its output is the output of that chunk: the engine's
    results, repaired to sixteen, or the sample texts themselves when the
    engine raises. *)
Theorem test_model_one_batch (s : EngineState) :
  quiet place ->
  let call :=
    engine Diagnostics.test_texts (py "eng_Latn") (py "hin_Deva") s in
  ApiFull.test_model uni_isspace uni_isalpha engine place s
  = (Ok (Diagnostics.StatusSuccess Diagnostics.test_texts
           (chunk_output Diagnostics.test_texts (fst call))),
     snd call).
Proof.
  intros Hq. cbn zeta.
  assert (Hb : quiet_beyond_sites place) by (intros p _; apply Hq).
  assert (Hff : fault_free (sites_of place)) by (intros site; apply Hq).
  unfold ApiFull.test_model, try_except, bind.
  rewrite (full_with_model_agrees uni_isspace uni_isalpha engine Hb).
  rewrite with_model_eval, with_model_body_eval, !Hff.
  change (resolve_tgt_lang (py "hin_Deva")) with (Some (py "hin_Deva")).
  cbn zeta.
  rewrite test_texts_translatable, test_texts_trimmed.
  rewrite test_texts_one_chunk.
  change (length Diagnostics.test_texts =? 0) with false.
  cbn [engine_trace].
  destruct (engine Diagnostics.test_texts (py "eng_Latn") (py "hin_Deva") s)
    as [o s1].
  cbn [fst snd chunk_outputs combine map concat].
  rewrite app_nil_r, scatter_pure_all by apply chunk_output_length.
  unfold ApiFull.at_. now rewrite Hq.
Qed.

End FurtherDiagnostics.

(** ** The further properties on the sample requests *)

(** The short code ["hi"] resolves to the canonical tag ["hin_Deva"]. *)
Lemma resolve_tgt_lang_canonical_witness :
  resolve_tgt_lang (py "hi") = Some (py "hin_Deva") /\
  In (py "hin_Deva") valid_target_langs /\
  resolve_tgt_lang (py "hin_Deva") = Some (py "hin_Deva").
Proof.
  split; [reflexivity |].
  exact (@resolve_tgt_lang_canonical (py "hi") (py "hin_Deva") eq_refl).
Defined.

(** A request of numbers and signs comes back without a call. *)
Lemma no_translatable_text_no_call_witness :
  Forall (fun text => is_translatable ascii_only ascii_only text = false)
    (texts demo_request_numbers) /\
  exists resp,
    run_demo no_fault demo_request_numbers = (Ok resp, 0) /\
    translations resp = texts demo_request_numbers.
Proof.
  assert (H : Forall (fun text => is_translatable ascii_only ascii_only text
                                  = false) (texts demo_request_numbers))
    by (repeat constructor).
  split; [exact H |].
  exact (@no_translatable_text_no_call ascii_only ascii_only nat demo_engine
           no_fault demo_request_numbers 0 H).
Defined.

(** Of the three chunks of fifty texts, the first is full and the last
    holds two texts. *)
Lemma chunk_sizes_witness :
  nth_error (chunks_of (repeat (py "Trade") 50)) 2
  = Some [py "Trade"; py "Trade"] /\
  (3 < length (chunks_of (repeat (py "Trade") 50)) ->
   length [py "Trade"; py "Trade"] = MODEL_BATCH_SIZE) /\
  (3 = length (chunks_of (repeat (py "Trade") 50)) ->
   length [py "Trade"; py "Trade"]
   = length (repeat (py "Trade") 50) - 2 * MODEL_BATCH_SIZE /\
   1 <= length [py "Trade"; py "Trade"] <= MODEL_BATCH_SIZE).
Proof.
  split; [reflexivity |].
  exact (@chunk_sizes (repeat (py "Trade") 50) 2 [py "Trade"; py "Trade"]
           eq_refl).
Defined.

(** The request of two chunks: the engine is called twice, on 26 texts. *)
Lemma engine_call_tally_witness :
  resolve_tgt_lang (target_language demo_request) = Some (py "hin_Deva") /\
  fault_free no_fault /\
  exists resp s',
    run_demo no_fault demo_request = (Ok resp, s') /\
    translate_texts ascii_only ascii_only (tallied demo_engine) no_fault
      demo_request (0, {| calls := 0; submitted := 0 |})
    = (Ok resp, (s', {| calls := 2; submitted := 26 |})).
Proof.
  split; [reflexivity | split; [exact fault_free_no_fault |]].
  exact (@engine_call_tally ascii_only ascii_only nat demo_engine no_fault
           demo_request 0 (py "hin_Deva") eq_refl fault_free_no_fault).
Defined.

(** The request of two chunks, with the engine that tags every text. *)
Lemma pointwise_engine_batching_transparent_witness :
  resolve_tgt_lang (target_language demo_request) = Some (py "hin_Deva") /\
  fault_free no_fault /\
  (forall batch s0,
      admissible_call ascii_only ascii_only batch (py "eng_Latn")
        (py "hin_Deva") ->
      fst (tag_engine batch (py "eng_Latn") (py "hin_Deva") s0)
      = Ok (map (tagged (py "hin_Deva")) batch)) /\
  exists s',
    translate_texts ascii_only ascii_only tag_engine no_fault demo_request 0
    = (Ok {| translations :=
               map (answer ascii_only ascii_only (tagged (py "hin_Deva")))
                 (texts demo_request);
             error := None |}, s').
Proof.
  assert (H : forall batch s0,
             admissible_call ascii_only ascii_only batch (py "eng_Latn")
               (py "hin_Deva") ->
             fst (tag_engine batch (py "eng_Latn") (py "hin_Deva") s0)
             = Ok (map (tagged (py "hin_Deva")) batch))
    by (intros batch s0 _; reflexivity).
  split; [reflexivity | split; [exact fault_free_no_fault | split; [exact H |]]].
  exact (@pointwise_engine_batching_transparent ascii_only ascii_only nat
           tag_engine no_fault (tagged (py "hin_Deva")) demo_request 0
           (py "hin_Deva") eq_refl fault_free_no_fault H).
Defined.

(** The short request, with the engine that is down: [" Hello world "]
    comes back trimmed. *)
Lemma engine_down_trims_witness :
  resolve_tgt_lang (target_language demo_request_hi) = Some (py "hin_Deva") /\
  fault_free no_fault /\
  (forall batch s0,
      admissible_call ascii_only ascii_only batch (py "eng_Latn")
        (py "hin_Deva") ->
      exists e,
        fst (down_engine batch (py "eng_Latn") (py "hin_Deva") s0) = Raise e) /\
  exists resp s',
    translate_texts ascii_only ascii_only down_engine no_fault
      demo_request_hi 0 = (Ok resp, s') /\
    error resp = None /\
    translations resp
    = [py "Hello world"; py "123"; py "Welcome"; py "  "; []] /\
    map (answer ascii_only ascii_only (fun t => t)) (translations resp)
    = translations resp.
Proof.
  assert (H : forall batch s0,
             admissible_call ascii_only ascii_only batch (py "eng_Latn")
               (py "hin_Deva") ->
             exists e,
               fst (down_engine batch (py "eng_Latn") (py "hin_Deva") s0)
               = Raise e)
    by (intros batch s0 _; eexists; reflexivity).
  split; [reflexivity | split; [exact fault_free_no_fault | split; [exact H |]]].
  exact (@engine_down_trims ascii_only ascii_only nat down_engine no_fault
           demo_request_hi 0 (py "hin_Deva") eq_refl fault_free_no_fault H).
Defined.

Lemma picky_engine_agrees :
  forall batch src_lang tgt_lang s0,
    admissible_call ascii_only ascii_only batch src_lang tgt_lang ->
    demo_engine batch src_lang tgt_lang s0
    = picky_engine batch src_lang tgt_lang s0.
Proof.
  intros batch src_lang tgt_lang s0 (Hne & _ & _ & -> & _).
  unfold picky_engine. destruct batch as [|t batch]; [congruence |].
  reflexivity.
Defined.

(** The engine that refuses the calls the pipeline never makes answers the
    request of two chunks as the plain one does. *)
Lemma engine_only_asked_admissible_calls_witness :
  (forall batch src_lang tgt_lang s0,
      admissible_call ascii_only ascii_only batch src_lang tgt_lang ->
      demo_engine batch src_lang tgt_lang s0
      = picky_engine batch src_lang tgt_lang s0) /\
  picky_engine [] (py "eng_Latn") (py "hin_Deva") 0
  <> demo_engine [] (py "eng_Latn") (py "hin_Deva") 0 /\
  run_demo no_fault demo_request
  = translate_texts ascii_only ascii_only picky_engine no_fault demo_request 0.
Proof.
  split; [exact picky_engine_agrees |]. split; [discriminate |].
  exact (@engine_only_asked_admissible_calls ascii_only ascii_only nat
           demo_engine no_fault picky_engine demo_request 0
           picky_engine_agrees).
Defined.

Lemma tag_engine_never_empty :
  forall batch src_lang tgt_lang (s0 : nat) results,
    fst (tag_engine batch src_lang tgt_lang s0) = Ok results ->
    Forall (fun t => t <> []) results.
Proof.
  intros batch src_lang tgt_lang s0 results [= <-].
  apply Forall_map, Forall_forall. intros t _. unfold tagged.
  destruct tgt_lang; discriminate.
Defined.

(** With the engine that tags every text, [" Invest "] of the request of two
    chunks does not come back empty. *)
Lemma translatable_text_never_empty_witness :
  (forall batch src_lang tgt_lang (s0 : nat) results,
      fst (tag_engine batch src_lang tgt_lang s0) = Ok results ->
      Forall (fun t => t <> []) results) /\
  nth_error (texts demo_request) 25 = Some (py " Invest ") /\
  is_translatable ascii_only ascii_only (py " Invest ") = true /\
  exists resp s' t,
    translate_texts ascii_only ascii_only tag_engine no_fault demo_request 0
    = (Ok resp, s') /\
    nth_error (translations resp) 25 = Some t /\
    t <> [].
Proof.
  split; [exact tag_engine_never_empty |].
  split; [reflexivity | split; [reflexivity |]].
  exact (@translatable_text_never_empty ascii_only ascii_only nat tag_engine
           no_fault demo_request 0 25 (py " Invest ")
           tag_engine_never_empty eq_refl eq_refl).
Defined.

(** What [debug_filter] answers, whatever the character database beyond
    ASCII: of its twenty texts only ["123"] is left out. *)
Example debug_filter_response (uni_isspace uni_isalpha uni_isdigit : char -> bool) :
  let resp := Diagnostics.debug_filter uni_isspace uni_isalpha uni_isdigit in
  Diagnostics.filtered_indices resp = 0 :: seq 2 18 /\
  Diagnostics.filtered_count resp = 19 /\
  Diagnostics.total_count resp = 20 /\
  Diagnostics.filtered_texts resp
  = map (fun i => nth i Diagnostics.debug_test_texts []) (0 :: seq 2 18).
Proof. repeat split. Qed.

(** [test_model] with the sample engine: one call, sixteen tagged texts. *)
Lemma test_model_one_batch_witness :
  quiet no_raise /\
  ApiFull.test_model ascii_only ascii_only demo_engine no_raise 0
  = (Ok (Diagnostics.StatusSuccess Diagnostics.test_texts
           (map (tagged (py "hin_Deva")) Diagnostics.test_texts)), 1).
Proof.
  split; [intros p; reflexivity |].
  exact (@test_model_one_batch ascii_only ascii_only nat demo_engine no_raise
           0 (fun _ => eq_refl)).
Defined.

(** When the [print] of line 286 raises, [test_model] reports the error. *)
Example test_model_reports_entry_print :
  ApiFull.test_model ascii_only ascii_only demo_engine raise_at_model_entry 0
  = (Ok (Diagnostics.StatusError (py "unexpected")), 0).
Proof. reflexivity. Qed.

(** An exception in the first prints of [_translate_batch_on_gpu] makes its
    handler raise; the loop over the batches falls back to the chunk. *)
Example chunk_fallback_after_gpu_entry_print :
  ApiFull._translate_batch_on_gpu demo_engine raise_at_gpu_entry
    [py "Trade"] (py "eng_Latn") (py "hin_Deva") 0
  = (Raise ApiFull.unbound_platform, 0) /\
  run_full raise_at_gpu_entry demo_request_hi
  = (Ok {| translations :=
             [py "Hello world"; py "123"; py "Welcome"; py "  "; []];
           error := None |}, 0).
Proof. split; reflexivity. Qed.
